(** * AI-Job-Agent: the job store, the apply executor, the reply matcher and
    the cycle orchestrator of [backend/app.py], embedded in Rocq.

    Conventions of the embedding.
    - Python [str] values are [string]s of ASCII text; [None] is [option]'s
      [None].
    - The SQLite file is the record [db] of its two tables, each a list of rows
      in insertion order.  Every store function of the source opens a
      connection, runs one statement, commits and closes: it is a function
      from [db] to [db].
    - What the outside world answers (the scraped cards, the browser, the LLM
      endpoint, the inbox, the clock) is an explicit argument. *)

From Stdlib Require Import String Ascii List Bool Arith Lia.
Import ListNotations.
Open Scope string_scope.

(** ** Python string operations used by the source *)

Module PyStr.

(** [c.lower()] on an ASCII character. *)
Definition lower_char (c : ascii) : ascii :=
  let n := nat_of_ascii c in
  if ((65 <=? n) && (n <=? 90))%nat then ascii_of_nat (n + 32) else c.

(** [s.lower()] *)
Fixpoint lower (s : string) : string :=
  match s with
  | EmptyString => EmptyString
  | String c s' => String (lower_char c) (lower s')
  end.

(** [s.startswith(p)] *)
Definition startswith (p s : string) : bool := prefix p s.

(** [needle in hay] *)
Fixpoint contains (needle hay : string) : bool :=
  prefix needle hay ||
  match hay with
  | EmptyString => false
  | String _ hay' => contains needle hay'
  end.

(** [s[:n]] *)
Fixpoint take (n : nat) (s : string) : string :=
  match n, s with
  | S n', String c s' => String c (take n' s')
  | _, _ => EmptyString
  end.

(** [s[n:]] *)
Fixpoint drop (n : nat) (s : string) : string :=
  match n, s with
  | S n', String _ s' => drop n' s'
  | _, _ => s
  end.

(** [c.isspace()] on ASCII: TAB, LF, VT, FF, CR, FS, GS, RS, US, space. *)
Definition is_space (c : ascii) : bool :=
  let n := nat_of_ascii c in
  (((9 <=? n) && (n <=? 13)) || ((28 <=? n) && (n <=? 32)))%nat.

Fixpoint lstrip (s : string) : string :=
  match s with
  | EmptyString => EmptyString
  | String c s' => if is_space c then lstrip s' else s
  end.

Fixpoint rstrip (s : string) : string :=
  match s with
  | EmptyString => EmptyString
  | String c s' =>
      match rstrip s' with
      | EmptyString => if is_space c then EmptyString else String c EmptyString
      | r => String c r
      end
  end.

(** [s.strip()] *)
Definition strip (s : string) : string := rstrip (lstrip s).

(** The ASCII line boundaries of [str.splitlines]: LF, VT, FF, CR, FS, GS, RS. *)
Definition is_linebreak (c : ascii) : bool :=
  let n := nat_of_ascii c in
  (((10 <=? n) && (n <=? 13)) || ((28 <=? n) && (n <=? 30)))%nat.

(** [s.splitlines()]; CR LF is one boundary. *)
Fixpoint splitlines (s : string) : list string :=
  match s with
  | EmptyString => []
  | String c s' =>
      if is_linebreak c then
        EmptyString ::
        match s' with
        | String c' s'' =>
            if ((nat_of_ascii c =? 13) && (nat_of_ascii c' =? 10))%nat
            then splitlines s'' else splitlines s'
        | EmptyString => []
        end
      else
        match splitlines s' with
        | [] => [String c EmptyString]
        | l :: ls => String c l :: ls
        end
  end.

(** Truthiness of a [str]: [bool(s)]. *)
Definition truthy (s : string) : bool :=
  match s with EmptyString => false | _ => true end.

End PyStr.

(** ** The store: tables [jobs] and [applications] *)

(** A job dict as the scrapers build it and [add_or_update_job] reads it:
    [status] and [notes] are read with [job.get(key, default)], so the keys may
    be absent; [url] may be [None]. *)
Module JobDict.
Record t := mk {
  job_id : string;
  title : string;
  company : string;
  location : string;
  url : option string;
  posted_date : string;
  status : option string;
  notes : option string
}.
End JobDict.

(** A row of table [jobs]; [job_id] carries the UNIQUE constraint. *)
Module Jobs.
Record row := mk {
  id : nat;
  job_id : string;
  title : string;
  company : string;
  location : string;
  url : option string;
  posted_date : string;
  status : string;
  applied_at : option string;
  notes : string
}.
End Jobs.

(** A row of table [applications]. *)
Module Applications.
Record row := mk {
  id : nat;
  job_id : string;
  cover : string;
  resume_path : string;
  attempt_time : string;
  result : string
}.
End Applications.

Record db := mkdb {
  jobs : list Jobs.row;
  applications : list Applications.row
}.

(** [init_db] on a fresh file: both tables empty. *)
Definition init_db : db := mkdb [] [].

(** Whether the INSERT of [add_or_update_job] hits the UNIQUE constraint. *)
Definition job_exists (jid : string) (d : db) : bool :=
  existsb (fun r => Jobs.job_id r =? jid) (jobs d).

(** The row the INSERT writes: AUTOINCREMENT [id] (no row is ever deleted),
    [applied_at] not listed, hence NULL. *)
Definition inserted_row (job : JobDict.t) (d : db) : Jobs.row :=
  Jobs.mk (S (length (jobs d)))
          (JobDict.job_id job) (JobDict.title job) (JobDict.company job)
          (JobDict.location job) (JobDict.url job) (JobDict.posted_date job)
          (match JobDict.status job with Some s => s | None => "new" end)
          None
          (match JobDict.notes job with Some n => n | None => "" end).

(** [UPDATE jobs SET title=?, company=?, location=?, url=?, posted_date=?]
    on one row. *)
Definition refresh_row (job : JobDict.t) (r : Jobs.row) : Jobs.row :=
  Jobs.mk (Jobs.id r) (Jobs.job_id r)
          (JobDict.title job) (JobDict.company job) (JobDict.location job)
          (JobDict.url job) (JobDict.posted_date job)
          (Jobs.status r) (Jobs.applied_at r) (Jobs.notes r).

Definition add_or_update_job (job : JobDict.t) (d : db) : db :=
  if job_exists (JobDict.job_id job) d then
    (* sqlite3.IntegrityError: already exists; update *)
    mkdb (map (fun r => if Jobs.job_id r =? JobDict.job_id job
                        then refresh_row job r else r) (jobs d))
         (applications d)
  else
    mkdb (jobs d ++ [inserted_row job d])%list (applications d).

(** [UPDATE jobs SET status=?, notes=?] on one row. *)
Definition restatus_row (status notes : string) (r : Jobs.row) : Jobs.row :=
  Jobs.mk (Jobs.id r) (Jobs.job_id r) (Jobs.title r) (Jobs.company r)
          (Jobs.location r) (Jobs.url r) (Jobs.posted_date r)
          status (Jobs.applied_at r) notes.

Definition set_job_status (job_id status notes : string) (d : db) : db :=
  mkdb (map (fun r => if Jobs.job_id r =? job_id
                      then restatus_row status notes r else r) (jobs d))
       (applications d).


(** ** Configuration read from the environment (lines 38-47) *)

Record config := mkconfig {
  GMAIL_EMAIL : option string;
  GMAIL_PASSWORD : option string;
  RESUME_PATH : string;
  JOB_LOCATION : string;
  JOB_ROLE : string;
  SELENIUM_DRIVER_PATH : string;
  APPLY_MODE : string;
  LOCAL_LLM_ENDPOINT : string
}.

(** Truthiness of a value that is [None] or a [str]. *)
Definition truthy_opt (o : option string) : bool :=
  match o with Some s => PyStr.truthy s | None => false end.

(** [x or default] for such a value. *)
Definition or_else (o : option string) (default : string) : string :=
  if truthy_opt o then match o with Some s => s | None => default end
  else default.

(** The outcome of a call into an external library: [None] when it returns,
    [Some e] when it raises an [Exception] whose [str()] is [e]. *)
Definition outcome := option string.

(** ** Local LLM adapter *)

(** The value [local_llm_generate] hands back.  Line 120 returns
    [j.get("text") or j.get("generated") or str(j)]: a [str], or whatever
    truthy JSON value sits under "text" or "generated".  [CoverText] is a
    [str] that sqlite3 can bind.  Of a number that sqlite3 can bind (a float,
    [True], an int of at most 64 bits) [as_text] is the text form SQLite
    gives it in a TEXT column.  Any other value (a non-empty list or dict, a
    larger int, a [str] with a lone surrogate) sqlite3 refuses to bind;
    [error] is the text of the exception it raises for it. *)
Inductive cover_value :=
| CoverText (text : string)
| CoverNumber (as_text : string)
| CoverUnbindable (error : string).

(** What the endpoint call of lines 117-120 yields: one of these values, or an
    exception ([requests.post], [raise_for_status], [r.json()] or [j.get]
    raises). *)
Inductive llm_reply :=
| LlmValue (v : cover_value)
| LlmRaises.

Definition local_llm_generate (cfg : config) (reply : llm_reply)
    (prompt : string) : cover_value :=
  if PyStr.truthy (LOCAL_LLM_ENDPOINT cfg) then
    match reply with
    | LlmValue v => v
    | LlmRaises =>
        CoverText ("[LLM failure] Generated fallback for prompt: "
                   ++ PyStr.take 200 prompt)
    end
  else CoverText ("Optimized cover for prompt (stub): " ++ PyStr.take 300 prompt).

(** Binding the value to a parameter of a TEXT column: [inl] of what sqlite3
    stores, [inr] of the exception text when it cannot bind the value. *)
Definition bind_text (v : cover_value) : string + string :=
  match v with
  | CoverText text => inl text
  | CoverNumber as_text => inl as_text
  | CoverUnbindable error => inr error
  end.

(** [record_application]: the INSERT of line 102 raises when [cover_text]
    cannot be bound, and nothing is written.  [now] is
    [datetime.utcnow().isoformat()] at the call. *)
Definition record_application
    (job_id : string) (cover_text : cover_value)
    (resume_path now result : string) (d : db) : db * outcome :=
  match bind_text cover_text with
  | inr error => (d, Some error)
  | inl cover =>
      (mkdb (jobs d)
            (applications d ++
             [Applications.mk (S (length (applications d)))
                              job_id cover resume_path now result])%list,
       None)
  end.

(** ** Scrapers *)

(** What the selectors of a scraper extract from one job card: the text of each
    tag when the tag is there, and the [href] of the link tag. *)
Record card := mkcard {
  card_title : option string;
  card_company : option string;
  card_location : option string;
  card_href : option string;
  card_posted : option string
}.

(** The answer to [requests.get]: an exception, or a status code with the
    cards the selector finds in the body. *)
Inductive http_page :=
| HttpRaises
| HttpResponse (status_code : nat) (cards : list card).

(** The filter of lines 162 and 201. *)
Definition posted_recently (posted : string) : bool :=
  PyStr.truthy posted &&
  (PyStr.contains "today" (PyStr.lower posted)
   || PyStr.contains "just posted" (PyStr.lower posted)
   || PyStr.contains "1 day" (PyStr.lower posted)).

(** The dict appended to [results] (lines 163-173 and 202-212). *)
Definition listing (today : string) (company : string) (title : option string)
    (loc_text : string) (job_url : option string) : JobDict.t :=
  JobDict.mk
    (PyStr.take 200 (company ++ "|" ++ or_else title "" ++ "|" ++ or_else job_url ""))
    (or_else title "Unknown") company loc_text job_url today
    (Some "new") (Some "").

Definition indeed_url (href : option string) : option string :=
  match href with
  | Some h => if PyStr.startswith "/" h
              then Some ("https://www.indeed.com" ++ h) else Some h
  | None => None
  end.

Definition indeed_listing (today location : string) (c : card) : JobDict.t :=
  listing today
    (match card_company c with Some t => t | None => "Unknown" end)
    (card_title c)
    (match card_location c with Some t => t | None => location end)
    (indeed_url (card_href c)).

Definition naukri_listing (today location : string) (c : card) : JobDict.t :=
  listing today
    (match card_company c with Some t => t | None => "Unknown" end)
    (card_title c)
    (match card_location c with Some t => t | None => location end)
    (card_href c).

Definition posted_text (c : card) : string :=
  match card_posted c with Some t => t | None => "" end.

(** [search_indeed]: [None] when [requests.get] raises (the exception leaves
    the function); [today] is [datetime.utcnow().date().isoformat()]. *)
Definition search_indeed (today role location : string) (page : http_page)
    : option (list JobDict.t) :=
  match page with
  | HttpRaises => None
  | HttpResponse code cards =>
      if negb (code =? 200)%nat then Some []
      else Some (map (indeed_listing today location)
                     (filter (fun c => posted_recently (posted_text c)) cards))
  end.

(** [search_naukri]: the whole body is under [try], the status is not read. *)
Definition search_naukri (today role location : string) (page : http_page)
    : list JobDict.t :=
  match page with
  | HttpRaises => []
  | HttpResponse _ cards =>
      map (naukri_listing today location)
          (filter (fun c => posted_recently (posted_text c)) cards)
  end.

(** ** Apply logic *)

(** The dict of an apply result; [detail] is absent for [no_url]. *)
Module ApplyResult.
Record t := mk { result : string; detail : option string }.
End ApplyResult.

(** The dict built on line 345. *)
Module ApplyJob.
Record t := mk {
  job_id : string;
  title : string;
  company : string;
  url : option string
}.
End ApplyJob.

(** What the browser does in one [apply_to_job] call.  The button loop of
    lines 250-257 swallows every exception and changes nothing the function
    returns, so its calls are not listed. *)
Record browser := mkbrowser {
  chrome : outcome;            (* webdriver.Chrome(...) *)
  get : outcome;               (* driver.get(url) *)
  find_file_input : outcome;   (* driver.find_element(By.XPATH, "//input[@type='file']") *)
  send_keys : outcome;         (* file_input.send_keys(...) *)
  quit_after_click : outcome;  (* driver.quit(), line 259 *)
  quit_in_handler : outcome    (* driver.quit(), line 262 *)
}.

Definition manual_required (b : browser) (e : string) : ApplyResult.t :=
  match quit_in_handler b with
  | None => ApplyResult.mk "manual_required" (Some ("no file input or error: " ++ e))
  | Some e' => ApplyResult.mk "selenium_error" (Some e')
  end.

Definition apply_to_job (job : ApplyJob.t) (b : browser) : ApplyResult.t :=
  if negb (truthy_opt (ApplyJob.url job)) then ApplyResult.mk "no_url" None
  else
    match chrome b with
    | Some e => ApplyResult.mk "selenium_error" (Some e)
    | None =>
        match get b with
        | Some e => ApplyResult.mk "selenium_error" (Some e)
        | None =>
            match find_file_input b with
            | Some e => manual_required b e
            | None =>
                match send_keys b with
                | Some e => manual_required b e
                | None =>
                    match quit_after_click b with
                    | Some e => manual_required b e
                    | None =>
                        ApplyResult.mk "applied" (Some "file-uploaded-and-clicked")
                    end
                end
            end
        end
    end.

(** [repr] of a [str], as [str()] of a dict prints its values. *)
Module PyRepr.
Definition squote : ascii := ascii_of_nat 39.
Definition dquote : ascii := ascii_of_nat 34.
Definition backslash : ascii := ascii_of_nat 92.

Definition hex_digit (n : nat) : ascii :=
  nth n (list_ascii_of_string "0123456789abcdef") "0"%char.

Definition repr_char (q c : ascii) : string :=
  let n := nat_of_ascii c in
  if ((c =? q) || (c =? backslash))%char then String backslash (String c "")
  else if (n =? 9)%nat then String backslash "t"
  else if (n =? 10)%nat then String backslash "n"
  else if (n =? 13)%nat then String backslash "r"
  else if ((n <? 32) || (n =? 127))%nat then
    String backslash
      (String "x" (String (hex_digit (n / 16)) (String (hex_digit (n mod 16)) "")))
  else String c "".

Fixpoint repr_body (q : ascii) (s : string) : string :=
  match s with
  | EmptyString => EmptyString
  | String c s' => repr_char q c ++ repr_body q s'
  end.

Definition repr (s : string) : string :=
  let q := if PyStr.contains (String squote "") s
              && negb (PyStr.contains (String dquote "") s)
           then dquote else squote in
  String q (repr_body q s ++ String q "").

(** [str(result)] for the dicts [apply_to_job] returns. *)
Definition str_result (r : ApplyResult.t) : string :=
  "{'result': " ++ repr (ApplyResult.result r) ++
  match ApplyResult.detail r with
  | Some d => ", 'detail': " ++ repr d
  | None => ""
  end ++ "}".
End PyRepr.

(** ** Gmail checker *)

(** A Python value that is a [str] or a [bytes]: [subject_raw] starts as
    [b""] (line 297) and becomes a [str] when a Subject line is read. *)
Inductive text := Str (s : string) | Bytes (b : string).

(** [x.lower()] keeps the type. *)
Definition text_lower (x : text) : text :=
  match x with Str s => Str (PyStr.lower s) | Bytes b => Bytes (PyStr.lower b) end.

(** [s + x] for a [str] [s]: [None] stands for the [TypeError] of
    [str + bytes]. *)
Definition str_add (s : string) (x : text) : option string :=
  match x with Str s' => Some (s ++ s') | Bytes _ => None end.

(** [f"{x}"] *)
Definition text_format (x : text) : string :=
  match x with
  | Str s => s
  | Bytes b => "b" ++ PyRepr.repr b
  end.

(** One fetched message: [header_fields] is
    [data.get(b'BODY[HEADER.FIELDS (FROM SUBJECT)]')] decoded as UTF-8 with
    [errors='ignore'] (which cannot fail), or [None] when the key is absent. *)
Record message := mkmessage { header_fields : option string }.

(** The body of the loop of lines 302-306 on the pair [(subject_raw, frm)]. *)
Definition parse_line (acc : text * string) (line : string) : text * string :=
  let '(subject_raw, frm) := acc in
  let subject_raw :=
    if PyStr.startswith "subject:" (PyStr.lower line)
    then Str (PyStr.strip (PyStr.drop (String.length "subject:") line))
    else subject_raw in
  let frm :=
    if PyStr.startswith "from:" (PyStr.lower line)
    then PyStr.strip (PyStr.drop (String.length "from:") line)
    else frm in
  (subject_raw, frm).

(** Lines 297-309: the pair [(subj, frm)] after the [try]. *)
Definition parse_headers (data : message) : text * string :=
  match header_fields data with
  | Some hdr => fold_left parse_line (PyStr.splitlines hdr) (Bytes "", "")
  | None => (Str "", "")   (* AttributeError on [None.decode], caught *)
  end.

(** [status NOT IN ('replied','hired','closed')] *)
Definition open_for_matching (r : Jobs.row) : bool :=
  negb ((Jobs.status r =? "replied") || (Jobs.status r =? "hired")
        || (Jobs.status r =? "closed")).

(** A call to [set_job_status], as the loops below issue them. *)
Record write := mkwrite {
  w_job_id : string;
  w_status : string;
  w_notes : string
}.

Definition writes_to (job_id : string) (ws : list write) : list write :=
  filter (fun w => w_job_id w =? job_id) ws.

(** The text searched on line 315: [frm.lower() + " " + subj.lower()]. *)
Definition haystack (frm : string) (subj : text) : option string :=
  str_add (PyStr.lower frm ++ " ") (text_lower subj).

Definition reply_notes (frm : string) (subj : text) : string :=
  "Email matched: " ++ text_format subj ++ " from " ++ frm.

(** Lines 314-317 over the fetched [rows]: the store after, the calls to
    [set_job_status] in order, and the exception that ended the loop if any. *)
Fixpoint match_rows (frm : string) (subj : text) (rows : list Jobs.row)
    (d : db) : db * list write * outcome :=
  match rows with
  | [] => (d, [], None)
  | r :: rest =>
      if negb (PyStr.truthy (Jobs.company r)) then match_rows frm subj rest d
      else
        match haystack frm subj with
        | None => (d, [], Some "TypeError")
        | Some hay =>
            if PyStr.contains (PyStr.lower (Jobs.company r)) hay then
              let notes := reply_notes frm subj in
              let d1 := set_job_status (Jobs.job_id r) "replied" notes d in
              let '(d2, ws, e) := match_rows frm subj rest d1 in
              (d2, mkwrite (Jobs.job_id r) "replied" notes :: ws, e)
            else match_rows frm subj rest d
        end
  end.

(** Lines 295-317: the loop over the fetched messages. *)
Fixpoint scan_messages (msgs : list message) (d : db)
    : db * list write * outcome :=
  match msgs with
  | [] => (d, [], None)
  | data :: rest =>
      let '(subj, frm) := parse_headers data in
      let rows := filter open_for_matching (jobs d) in
      match match_rows frm subj rows d with
      | (d1, ws1, Some e) => (d1, ws1, Some e)
      | (d1, ws1, None) =>
          let '(d2, ws2, e) := scan_messages rest d1 in
          (d2, (ws1 ++ ws2)%list, e)
      end
  end.

(** What the IMAP server does in one call: the session raises somewhere up to
    and including [fetch], or it delivers [resp.items()] (empty when [search]
    finds nothing) and then answers [logout]. *)
Inductive inbox :=
| ImapRaises (e : string)
| ImapMessages (resp : list message) (logout : outcome).

(** A value a Python function hands back. *)
Inductive pyval := PyNone | PyInt (n : nat).

(** How a call ends. *)
Inductive completion := Returns (v : pyval) | Raises (e : string).

Definition check_gmail_and_update (cfg : config) (box : inbox) (d : db)
    : db * list write * completion :=
  if negb (truthy_opt (GMAIL_EMAIL cfg) && truthy_opt (GMAIL_PASSWORD cfg))
  then (d, [], Returns PyNone)
  else
    match box with
    | ImapRaises e => (d, [], Raises e)
    | ImapMessages [] _ => (d, [], Returns PyNone)
    | ImapMessages msgs logout =>
        match scan_messages msgs d with
        | (d', ws, Some e) => (d', ws, Raises e)
        | (d', ws, None) =>
            (d', ws, match logout with
                     | None => Returns PyNone
                     | Some e => Raises e
                     end)
        end
    end.

(** ** Orchestration *)

(** What the outside answers while one job is drafted and applied. *)
Record job_world := mkjob_world {
  llm : llm_reply;
  page : browser;
  now : string
}.

Definition cover_prompt (cfg : config) (title company : string) : string :=
  "Optimize applicant resume and generate a short cover letter (3 bullets + 3-line intro) for job: "
  ++ title ++ " at " ++ company ++ ". Base resume: (local file: "
  ++ RESUME_PATH cfg ++ ")".

(** Lines 345-361: the body of the loop for one fetched row; an exception of
    [record_application] leaves the body before the status is set. *)
Definition draft_and_apply_job (cfg : config) (w : job_world) (r : Jobs.row)
    (d : db) : db * list write * outcome :=
  let job := ApplyJob.mk (Jobs.job_id r) (Jobs.title r) (Jobs.company r)
                         (Jobs.url r) in
  let prompt := cover_prompt cfg (Jobs.title r) (Jobs.company r) in
  let cover_text := local_llm_generate cfg (llm w) prompt in
  if APPLY_MODE cfg =? "auto" then
    let result := apply_to_job job (page w) in
    match record_application (Jobs.job_id r) cover_text (RESUME_PATH cfg)
                             (now w) (PyRepr.str_result result) d with
    | (d1, Some e) => (d1, [], Some e)
    | (d1, None) =>
        let wr :=
          if ApplyResult.result result =? "applied" then
            mkwrite (Jobs.job_id r) "applied" (PyRepr.str_result result)
          else if ApplyResult.result result =? "manual_required" then
            mkwrite (Jobs.job_id r) "queued_manual"
                    (match ApplyResult.detail result with
                     | Some t => t
                     | None => ""
                     end)
          else
            mkwrite (Jobs.job_id r) "error" (PyRepr.str_result result) in
        (set_job_status (w_job_id wr) (w_status wr) (w_notes wr) d1, [wr], None)
    end
  else
    match record_application (Jobs.job_id r) cover_text (RESUME_PATH cfg)
                             (now w) "queued_for_manual" d with
    | (d1, Some e) => (d1, [], Some e)
    | (d1, None) =>
        let wr := mkwrite (Jobs.job_id r) "queued_manual"
                          "Awaiting manual approval to apply" in
        (set_job_status (w_job_id wr) (w_status wr) (w_notes wr) d1, [wr], None)
    end.

(** The loop of line 344 over the fetched rows; the [i]-th iteration meets
    the world [w i].  No [try] surrounds the loop: an exception in one
    iteration ends it. *)
Fixpoint draft_and_apply_rows (cfg : config) (w : nat -> job_world) (i : nat)
    (rows : list Jobs.row) (d : db) : db * list write * outcome :=
  match rows with
  | [] => (d, [], None)
  | r :: rest =>
      match draft_and_apply_job cfg (w i) r d with
      | (d1, ws1, Some e) => (d1, ws1, Some e)
      | (d1, ws1, None) =>
          let '(d2, ws2, e) := draft_and_apply_rows cfg w (S i) rest d1 in
          (d2, (ws1 ++ ws2)%list, e)
      end
  end.

(** Stage 3 of [run_full_cycle] (lines 339-362): the rows are fetched once,
    [WHERE status='new']. *)
Definition draft_and_apply (cfg : config) (w : nat -> job_world) (d : db)
    : db * list write * outcome :=
  draft_and_apply_rows cfg w 0
    (filter (fun r => Jobs.status r =? "new") (jobs d)) d.

(** What the outside answers during one cycle. *)
Record cycle_world := mkcycle_world {
  today : string;
  indeed : http_page;
  naukri : http_page;
  per_job : nat -> job_world;
  mailbox : inbox
}.

Definition jobs_found (cfg : config) (w : cycle_world) : list JobDict.t :=
  ((match search_indeed (today w) (JOB_ROLE cfg) (JOB_LOCATION cfg) (indeed w) with
    | Some found => found
    | None => []        (* "indeed error:" is printed *)
    end)
   ++ search_naukri (today w) (JOB_ROLE cfg) (JOB_LOCATION cfg) (naukri w))%list.

Definition upsert_all (found : list JobDict.t) (d : db) : db :=
  fold_left (fun d j => add_or_update_job j d) found d.

(** [run_full_cycle]: the store it leaves and how it ends.  An exception of
    stage 3 leaves the function (the email check is not reached); an
    exception of the email check is caught and printed. *)
Definition run_full_cycle (cfg : config) (w : cycle_world) (d : db)
    : db * completion :=
  let d1 := upsert_all (jobs_found cfg w) d in
  match draft_and_apply cfg (per_job w) d1 with
  | (d2, _, Some e) => (d2, Raises e)
  | (d2, _, None) =>
      (fst (fst (check_gmail_and_update cfg (mailbox w) d2)), Returns PyNone)
  end.

(** ** Sequences of core operations *)

Inductive op :=
| Upsert (job : JobDict.t)
| FullCycle (cfg : config) (w : cycle_world)
| Reconcile (cfg : config) (box : inbox).

Definition run_op (o : op) (d : db) : db :=
  match o with
  | Upsert job => add_or_update_job job d
  | FullCycle cfg w => fst (run_full_cycle cfg w d)
  | Reconcile cfg box => fst (fst (check_gmail_and_update cfg box d))
  end.

Definition run_ops (ops : list op) (d : db) : db :=
  fold_left (fun d o => run_op o d) ops d.

(** ** Notions used in the statements *)

(** The UNIQUE constraint on [jobs.job_id]. *)
Definition unique_job_ids (d : db) : Prop :=
  NoDup (map Jobs.job_id (jobs d)).

(** The rows of [jobs] that carry a given [job_id]. *)
Definition rows_of (job_id : string) (d : db) : list Jobs.row :=
  filter (fun r => Jobs.job_id r =? job_id) (jobs d).

(** The effect of one [set_job_status] call on one row, and of a sequence of
    calls. *)
Definition apply_write (w : write) (r : Jobs.row) : Jobs.row :=
  if Jobs.job_id r =? w_job_id w
  then restatus_row (w_status w) (w_notes w) r else r.

Definition replay (ws : list write) (r : Jobs.row) : Jobs.row :=
  fold_left (fun r w => apply_write w r) ws r.

(** The From text and the Subject value the matcher holds for a message. *)
Definition msg_from (data : message) : string := snd (parse_headers data).
Definition msg_subject (data : message) : text := fst (parse_headers data).

(** The test of line 315 for one message and one row; [false] when the
    haystack cannot be built. *)
Definition row_matches (data : message) (r : Jobs.row) : bool :=
  PyStr.truthy (Jobs.company r) &&
  match haystack (msg_from data) (msg_subject data) with
  | Some hay => PyStr.contains (PyStr.lower (Jobs.company r)) hay
  | None => false
  end.

(** The messages a call to [check_gmail_and_update] fetches. *)
Definition fetched (cfg : config) (box : inbox) : list message :=
  if negb (truthy_opt (GMAIL_EMAIL cfg) && truthy_opt (GMAIL_PASSWORD cfg))
  then []
  else match box with
       | ImapRaises _ => []
       | ImapMessages resp _ => resp
       end.

(** The Subject as a [str], for a message whose Subject value is one. *)
Definition subject_text (data : message) : string :=
  match msg_subject data with Str s => s | Bytes _ => "" end.

(** The test in the specification's words: the company, non-empty, occurs
    case-insensitively in the concatenation of the From and Subject text. *)
Definition claimed_match (data : message) (r : Jobs.row) : bool :=
  PyStr.truthy (Jobs.company r) &&
  PyStr.contains (PyStr.lower (Jobs.company r))
                 (PyStr.lower (msg_from data ++ subject_text data)).

(** The outcome vocabulary the specification gives the apply executor. *)
Definition claimed_results : list string :=
  ["applied"; "manual_required"; "no_url"; "automation_error"].

(** The outcome vocabulary of [apply_to_job]. *)
Definition apply_results : list string :=
  ["applied"; "manual_required"; "no_url"; "selenium_error"].

(** The recency vocabulary of the specification, and its filter: the
    posted-date text contains, case-insensitively, one of the markers. *)
Definition recency_markers : list string := ["today"; "just posted"; "1 day"].

Definition claimed_recent (posted : string) : bool :=
  existsb (fun marker => PyStr.contains marker (PyStr.lower posted))
          recency_markers.

(** The status update and the application result of one iteration of the
    draft-and-apply loop: what lines 349-361 pass to [set_job_status] and to
    [record_application]. *)
Definition job_write (cfg : config) (w : job_world) (r : Jobs.row) : write :=
  let result :=
    apply_to_job (ApplyJob.mk (Jobs.job_id r) (Jobs.title r) (Jobs.company r)
                              (Jobs.url r)) (page w) in
  if APPLY_MODE cfg =? "auto" then
    if ApplyResult.result result =? "applied" then
      mkwrite (Jobs.job_id r) "applied" (PyRepr.str_result result)
    else if ApplyResult.result result =? "manual_required" then
      mkwrite (Jobs.job_id r) "queued_manual"
              (match ApplyResult.detail result with Some t => t | None => "" end)
    else
      mkwrite (Jobs.job_id r) "error" (PyRepr.str_result result)
  else
    mkwrite (Jobs.job_id r) "queued_manual" "Awaiting manual approval to apply".

Definition job_cover (cfg : config) (w : job_world) (r : Jobs.row)
    : cover_value :=
  local_llm_generate cfg (llm w)
    (cover_prompt cfg (Jobs.title r) (Jobs.company r)).

Definition job_application (cfg : config) (w : job_world) (r : Jobs.row)
    (cover : string) (id : nat) : Applications.row :=
  Applications.mk id (Jobs.job_id r) cover
    (RESUME_PATH cfg) (now w)
    (if APPLY_MODE cfg =? "auto" then
       PyRepr.str_result
         (apply_to_job (ApplyJob.mk (Jobs.job_id r) (Jobs.title r)
                                    (Jobs.company r) (Jobs.url r)) (page w))
     else "queued_for_manual").

(** The applications table's rows for one job_id. *)
Definition applications_of (job_id : string) (rows : list Applications.row)
    : list Applications.row :=
  filter (fun a => Applications.job_id a =? job_id) rows.

(** The dict of line 345 for a fetched row. *)
Definition apply_job_of (r : Jobs.row) : ApplyJob.t :=
  ApplyJob.mk (Jobs.job_id r) (Jobs.title r) (Jobs.company r) (Jobs.url r).

(** ** Sample inputs *)

Definition CRLF : string :=
  String (ascii_of_nat 13) (String (ascii_of_nat 10) "").

Definition manual_cfg : config :=
  mkconfig (Some "me@example.com") (Some "secret") "./resume/my_resume.pdf"
           "India" "software engineer" "" "manual" "".

Definition auto_cfg : config :=
  mkconfig (Some "me@example.com") (Some "secret") "./resume/my_resume.pdf"
           "India" "software engineer" "" "auto" "".

Definition acme : JobDict.t :=
  JobDict.mk "Acme|SWE|https://x/1" "SWE" "Acme" "India" (Some "https://x/1")
             "2026-01-01" None None.

Definition acme_store : db := add_or_update_job acme init_db.

Definition acme_row : Jobs.row :=
  Jobs.mk 1 "Acme|SWE|https://x/1" "SWE" "Acme" "India" (Some "https://x/1")
          "2026-01-01" "new" None "".

Definition interview_mail : message :=
  mkmessage (Some ("From: hr@acme.com" ++ CRLF ++ "Subject: Interview" ++ CRLF ++ CRLF)).

Definition mail_without_subject : message :=
  mkmessage (Some ("From: hr@acme.com" ++ CRLF ++ CRLF)).

Definition datacorp : JobDict.t :=
  JobDict.mk "Data Corp|Analyst|https://x/2" "Analyst" "Data Corp" "India"
             (Some "https://x/2") "2026-01-01" None None.

Definition datacorp_store : db := add_or_update_job datacorp init_db.

Definition datacorp_row : Jobs.row :=
  Jobs.mk 1 "Data Corp|Analyst|https://x/2" "Analyst" "Data Corp" "India"
          (Some "https://x/2") "2026-01-01" "new" None "".

Definition newsletter_mail : message :=
  mkmessage (Some ("From: alerts@bigdata" ++ CRLF ++ "Subject: Corp newsletter" ++ CRLF ++ CRLF)).

Definition acme_apply_job : ApplyJob.t :=
  ApplyJob.mk "Acme|SWE|https://x/1" "SWE" "Acme" (Some "https://x/1").

(** A browser that does everything asked, and a machine without a driver. *)
Definition browser_ok : browser := mkbrowser None None None None None None.

Definition chrome_down : browser :=
  mkbrowser (Some "chromedriver not found") None None None None None.

(** A page without a file input; a page whose file input refuses the path;
    and a page without a file input in a browser that cannot be quit. *)
Definition page_without_input : browser :=
  mkbrowser None None (Some "no such element") (Some "not reached")
            (Some "not reached") None.

Definition input_refuses_path : browser :=
  mkbrowser None None None (Some "invalid argument: File not found")
            (Some "not reached") None.

Definition stuck_without_input : browser :=
  mkbrowser None None (Some "no such element") None None
            (Some "invalid session id").

(** Two jobs waiting in the store, one of them already answered. *)
Definition two_jobs_store : db :=
  set_job_status "Data Corp|Analyst|https://x/2" "replied" "Email matched"
    (add_or_update_job datacorp (add_or_update_job acme init_db)).

Definition datacorp_replied_row : Jobs.row :=
  Jobs.mk 2 "Data Corp|Analyst|https://x/2" "Analyst" "Data Corp" "India"
          (Some "https://x/2") "2026-01-01" "replied" None "Email matched".

Definition quiet_world : nat -> job_world :=
  fun _ => mkjob_world LlmRaises browser_ok "2026-01-02T00:00:00".

Definition acme_card : card :=
  mkcard (Some "SWE") (Some "Acme") None (Some "/job/1") (Some "Just posted").

Definition sample_cycle : cycle_world :=
  mkcycle_world "2026-01-02" (HttpResponse 200 [acme_card]) HttpRaises
                quiet_world (ImapMessages [interview_mail] None).

(** The listing of the specification's scenario, as Naukri would show it. *)
Definition acme_today_card : card :=
  mkcard (Some "SWE") (Some "Acme") None (Some "https://x/1") (Some "today").

Definition scenario_cycle : cycle_world :=
  mkcycle_world "2026-01-02" HttpRaises (HttpResponse 200 [acme_today_card])
                quiet_world (ImapMessages [] None).

(** A message leaves the rows alone: every row that is open for matching
    and has a company fails the test of line 315 against it (the haystack
    can be built and the company is not in it). *)
Definition quiet (data : message) (rows : list Jobs.row) : Prop :=
  forall r, In r rows -> open_for_matching r = true ->
    PyStr.truthy (Jobs.company r) = true ->
    exists hay, haystack (msg_from data) (msg_subject data) = Some hay /\
                PyStr.contains (PyStr.lower (Jobs.company r)) hay = false.

(** A text without any of the line boundaries of [str.splitlines]. *)
Fixpoint single_line (s : string) : bool :=
  match s with
  | EmptyString => true
  | String c s' => negb (PyStr.is_linebreak c) && single_line s'
  end.

(** The header block a server sends for a message with these two fields. *)
Definition header_block (frm subj : string) : string :=
  "From: " ++ frm ++ CRLF ++ "Subject: " ++ subj ++ CRLF ++ CRLF.

Definition header_block_subject_first (frm subj : string) : string :=
  "SUBJECT: " ++ subj ++ CRLF ++ "FROM: " ++ frm ++ CRLF ++ CRLF.

(** The store after the scenario's first cycle. *)
Definition queued_store : db :=
  fst (run_full_cycle manual_cfg scenario_cycle init_db).

(** The statuses the code writes: "new" on insertion by a scraper, the three
    outcomes of stage 3, and "replied". *)
Definition written_statuses : list string :=
  ["new"; "queued_manual"; "applied"; "error"; "replied"].

(** The operations the program itself starts: the scheduler, the /run_now
    endpoint and --run-once call [run_full_cycle], which ingests what the
    scrapers built and calls the reply matcher. *)
Definition started_by_program (o : op) : Prop :=
  match o with
  | Upsert _ => False
  | FullCycle _ _ => True
  | Reconcile _ _ => True
  end.

(** Two rows that differ at most in status and notes. *)
Definition same_but_status (r r' : Jobs.row) : Prop :=
  Jobs.id r' = Jobs.id r /\ Jobs.job_id r' = Jobs.job_id r /\
  Jobs.title r' = Jobs.title r /\ Jobs.company r' = Jobs.company r /\
  Jobs.location r' = Jobs.location r /\ Jobs.url r' = Jobs.url r /\
  Jobs.posted_date r' = Jobs.posted_date r /\
  Jobs.applied_at r' = Jobs.applied_at r.

(** A configuration with a local endpoint, and two answers of the endpoint:
    {"text": ["Dear Acme"]} and {"text": "Dear Acme"}.  [list_not_bound] is
    what sqlite3 says of the list (the wording of CPython 3.11). *)
Definition llm_cfg : config :=
  mkconfig (Some "me@example.com") (Some "secret") "./resume/my_resume.pdf"
           "India" "software engineer" "" "manual"
           "http://localhost:8000/generate".

Definition list_not_bound : string :=
  "Error binding parameter 2: type 'list' is not supported".

Definition list_reply_world : nat -> job_world :=
  fun _ => mkjob_world (LlmValue (CoverUnbindable list_not_bound)) browser_ok
                       "2026-01-02T00:00:00".

Definition text_reply_world : nat -> job_world :=
  fun _ => mkjob_world (LlmValue (CoverText "Dear Acme")) browser_ok
                       "2026-01-02T00:00:00".

Definition list_reply_cycle : cycle_world :=
  mkcycle_world "2026-01-02" HttpRaises HttpRaises list_reply_world
                (ImapMessages [interview_mail] None).

(** Letter case, in the specification's sense and without [lower]: two
    characters are the same letter when they are equal or are the upper-case
    and lower-case form of one ASCII letter; two texts are the same up to
    letter case when they are so character by character. *)
Definition is_ascii_letter (c : ascii) : bool :=
  let n := nat_of_ascii c in
  (((65 <=? n) && (n <=? 90)) || ((97 <=? n) && (n <=? 122)))%nat.

Definition same_letter (a b : ascii) : bool :=
  (a =? b)%char ||
  (is_ascii_letter a && is_ascii_letter b &&
   (nat_of_ascii a mod 32 =? nat_of_ascii b mod 32)%nat).

Fixpoint same_text_ignoring_case (s t : string) : bool :=
  match s, t with
  | EmptyString, EmptyString => true
  | String a s', String b t' => same_letter a b && same_text_ignoring_case s' t'
  | _, _ => false
  end.

(** The 256 characters. *)
Definition all_ascii : list ascii := map ascii_of_nat (seq 0 256).

(** A page with one listing posted "Just posted" and one posted
    "2 days ago", and a cycle that scrapes it from Indeed and finds nothing
    on Naukri. *)
Definition old_card : card :=
  mkcard (Some "QA") (Some "Initech") None (Some "/job/2") (Some "2 days ago").

Definition two_card_cycle : cycle_world :=
  mkcycle_world "2026-01-02" (HttpResponse 200 [acme_card; old_card])
                (HttpResponse 200 []) quiet_world (ImapMessages [] None).

(** A new job met by a page without a file input, in auto mode. *)
Definition no_input_world : nat -> job_world :=
  fun _ => mkjob_world LlmRaises page_without_input "2026-01-02T00:00:00".

(** * Proofs *)

Section StoreFacts.

Lemma job_exists_iff jid d :
  job_exists jid d = true <-> In jid (map Jobs.job_id (jobs d)).
Proof.
  unfold job_exists. rewrite existsb_exists, in_map_iff.
  split; intros [r [H1 H2]]; exists r.
  - apply String.eqb_eq in H2. auto.
  - split; [assumption | now apply String.eqb_eq].
Qed.

Lemma refresh_row_job_id job r :
  Jobs.job_id (refresh_row job r) = Jobs.job_id r.
Proof. reflexivity. Qed.

Lemma apply_write_job_id w r :
  Jobs.job_id (apply_write w r) = Jobs.job_id r.
Proof. unfold apply_write. now destruct (_ =? _). Qed.

Lemma replay_job_id ws r : Jobs.job_id (replay ws r) = Jobs.job_id r.
Proof.
  revert r. induction ws as [|w ws IH]; intros r; simpl; [reflexivity|].
  unfold replay in IH. rewrite IH. apply apply_write_job_id.
Qed.

Lemma replay_app ws1 ws2 r :
  replay (ws1 ++ ws2) r = replay ws2 (replay ws1 r).
Proof. unfold replay. apply fold_left_app. Qed.

(** Only the calls that name the row's [job_id] matter to it. *)
Lemma replay_writes_to ws r :
  replay ws r = replay (writes_to (Jobs.job_id r) ws) r.
Proof.
  revert r. induction ws as [|w ws IH]; intros r; [reflexivity|].
  change (replay ws (apply_write w r) =
          replay (writes_to (Jobs.job_id r) (w :: ws)) r).
  rewrite IH, apply_write_job_id.
  unfold writes_to at 2. simpl filter.
  destruct (w_job_id w =? Jobs.job_id r) eqn:E; [reflexivity|].
  unfold apply_write. rewrite String.eqb_sym, E. reflexivity.
Qed.

Lemma set_job_status_jobs jid s n d :
  jobs (set_job_status jid s n d) = map (apply_write (mkwrite jid s n)) (jobs d).
Proof. reflexivity. Qed.

Lemma map_job_id_replay ws rows :
  map Jobs.job_id (map (replay ws) rows) = map Jobs.job_id rows.
Proof.
  rewrite map_map. apply map_ext. intros r. apply replay_job_id.
Qed.

Lemma nth_error_map_replay ws rows i r :
  nth_error rows i = Some r ->
  nth_error (map (replay ws) rows) i = Some (replay ws r).
Proof. intros H. rewrite nth_error_map, H. reflexivity. Qed.

End StoreFacts.

Section ListFacts.
Context {A : Type}.

Lemma filter_none (p : A -> bool) (l : list A) :
  (forall x, In x l -> p x = false) -> filter p l = [].
Proof.
  induction l as [|a l IH]; intros H; [reflexivity|].
  simpl. rewrite (H a (or_introl eq_refl)). apply IH.
  intros x Hx. apply H. now right.
Qed.

Lemma map_fixed (f : A -> A) (l : list A) :
  (forall x, In x l -> f x = x) -> map f l = l.
Proof.
  intros H. rewrite <- (map_id l) at 2. now apply map_ext_in.
Qed.

End ListFacts.

Section Upsert.

Lemma filter_job_id_unique (rows : list Jobs.row) (r : Jobs.row) :
  NoDup (map Jobs.job_id rows) -> In r rows ->
  filter (fun x => Jobs.job_id x =? Jobs.job_id r) rows = [r].
Proof.
  induction rows as [|x rows IH]; intros Hnd Hin; [contradiction|].
  simpl in Hnd. inversion Hnd as [|? ? Hx Hnd']; subst.
  simpl. destruct Hin as [->|Hin].
  - rewrite String.eqb_refl. f_equal.
    apply filter_none. intros y Hy.
    destruct (Jobs.job_id y =? Jobs.job_id r) eqn:E; [|reflexivity].
    apply String.eqb_eq in E. exfalso. apply Hx. rewrite <- E.
    now apply in_map.
  - destruct (Jobs.job_id x =? Jobs.job_id r) eqn:E.
    + apply String.eqb_eq in E. exfalso. apply Hx. rewrite E.
      now apply in_map.
    + now apply IH.
Qed.

Lemma map_job_id_refresh job rows :
  map Jobs.job_id
      (map (fun r => if Jobs.job_id r =? JobDict.job_id job
                     then refresh_row job r else r) rows)
  = map Jobs.job_id rows.
Proof.
  rewrite map_map. apply map_ext. intros r. now destruct (_ =? _).
Qed.

Lemma add_or_update_job_job_ids job d :
  map Jobs.job_id (jobs (add_or_update_job job d)) =
  if job_exists (JobDict.job_id job) d then map Jobs.job_id (jobs d)
  else (map Jobs.job_id (jobs d) ++ [JobDict.job_id job])%list.
Proof.
  unfold add_or_update_job. destruct (job_exists _ d); simpl.
  - apply map_job_id_refresh.
  - now rewrite map_app.
Qed.

Lemma add_or_update_job_unique job d :
  unique_job_ids d -> unique_job_ids (add_or_update_job job d).
Proof.
  unfold unique_job_ids. intros H. rewrite add_or_update_job_job_ids.
  destruct (job_exists (JobDict.job_id job) d) eqn:E; [assumption|].
  apply NoDup_app; [assumption | repeat constructor; intros [] |].
  intros x Hx [<-|[]].
  apply job_exists_iff in Hx. congruence.
Qed.

Lemma add_or_update_job_exists job d :
  job_exists (JobDict.job_id job) (add_or_update_job job d) = true.
Proof.
  apply job_exists_iff. rewrite add_or_update_job_job_ids.
  destruct (job_exists (JobDict.job_id job) d) eqn:E.
  - now apply job_exists_iff.
  - apply in_or_app. right. now left.
Qed.

Lemma add_or_update_job_twice job d :
  add_or_update_job job (add_or_update_job job d) = add_or_update_job job d.
Proof.
  unfold add_or_update_job at 1. rewrite add_or_update_job_exists.
  unfold add_or_update_job.
  destruct (job_exists (JobDict.job_id job) d) eqn:E; simpl; f_equal.
  - rewrite map_map. apply map_ext. intros r.
    destruct (Jobs.job_id r =? JobDict.job_id job) eqn:Er.
    + rewrite refresh_row_job_id, Er. reflexivity.
    + rewrite Er. reflexivity.
  - rewrite map_app. simpl. rewrite String.eqb_refl. f_equal.
    apply map_fixed.
    intros r Hr. destruct (Jobs.job_id r =? JobDict.job_id job) eqn:Er;
      [|reflexivity].
    apply String.eqb_eq in Er.
    assert (job_exists (JobDict.job_id job) d = true); [|congruence].
    apply job_exists_iff. rewrite <- Er. now apply in_map.
Qed.

End Upsert.

(** *** C1: upsert *)

(** C1.  [add_or_update_job] with a [job_id] not yet in the store appends one
    row that carries the record's fields, with status "new" and notes "" when
    the record has no such keys.  With a [job_id] already in the store it
    leaves the applications and the number of rows alone; every row keeps its
    id, job_id, status, notes and applied_at, the rows of that [job_id] take
    the record's title, company, location, url and posted_date, and all other
    rows are unchanged.  A second call with the same record changes nothing,
    and on a store with unique job_ids exactly one row carries the [job_id]
    after it. *)
Theorem add_or_update_job_upserts (job : JobDict.t) (d : db) :
  (job_exists (JobDict.job_id job) d = false ->
   exists r,
     add_or_update_job job d = mkdb (jobs d ++ [r]) (applications d) /\
     Jobs.job_id r = JobDict.job_id job /\
     Jobs.title r = JobDict.title job /\
     Jobs.company r = JobDict.company job /\
     Jobs.location r = JobDict.location job /\
     Jobs.url r = JobDict.url job /\
     Jobs.posted_date r = JobDict.posted_date job /\
     Jobs.applied_at r = None /\
     (JobDict.status job = None -> Jobs.status r = "new") /\
     (JobDict.notes job = None -> Jobs.notes r = "")) /\
  (job_exists (JobDict.job_id job) d = true ->
   applications (add_or_update_job job d) = applications d /\
   length (jobs (add_or_update_job job d)) = length (jobs d) /\
   forall i r, nth_error (jobs d) i = Some r ->
     exists r',
       nth_error (jobs (add_or_update_job job d)) i = Some r' /\
       Jobs.id r' = Jobs.id r /\
       Jobs.job_id r' = Jobs.job_id r /\
       Jobs.status r' = Jobs.status r /\
       Jobs.notes r' = Jobs.notes r /\
       Jobs.applied_at r' = Jobs.applied_at r /\
       (Jobs.job_id r = JobDict.job_id job ->
        Jobs.title r' = JobDict.title job /\
        Jobs.company r' = JobDict.company job /\
        Jobs.location r' = JobDict.location job /\
        Jobs.url r' = JobDict.url job /\
        Jobs.posted_date r' = JobDict.posted_date job) /\
       (Jobs.job_id r <> JobDict.job_id job -> r' = r)) /\
  add_or_update_job job (add_or_update_job job d) = add_or_update_job job d /\
  (unique_job_ids d ->
   length (rows_of (JobDict.job_id job)
                   (add_or_update_job job (add_or_update_job job d))) = 1).
Proof.
  repeat split.
  - intros E. exists (inserted_row job d).
    unfold add_or_update_job. rewrite E.
    repeat split; simpl; intros ->; reflexivity.
  - unfold add_or_update_job. now rewrite H.
  - unfold add_or_update_job. rewrite H. simpl. apply length_map.
  - intros i r Hi. unfold add_or_update_job. rewrite H. simpl.
    rewrite nth_error_map, Hi. simpl.
    destruct (Jobs.job_id r =? JobDict.job_id job) eqn:E.
    + exists (refresh_row job r). repeat split; try reflexivity.
      apply String.eqb_eq in E. congruence.
    + exists r. repeat split; try reflexivity;
        apply String.eqb_neq in E; intros; congruence.
  - apply add_or_update_job_twice.
  - intros Hu. rewrite add_or_update_job_twice.
    pose proof (add_or_update_job_unique job d Hu) as Hu'.
    pose proof (add_or_update_job_exists job d) as He.
    apply job_exists_iff in He. apply in_map_iff in He.
    destruct He as [r [Hr Hin]]. unfold rows_of. rewrite <- Hr.
    rewrite (filter_job_id_unique _ r Hu' Hin). reflexivity.
Qed.

(** *** C8: set_job_status *)

(** C8.  [set_job_status] returns a store (it raises nothing) in which the
    applications and the number of job rows are as before, every row with the
    given [job_id] has the given status and notes and its other columns as
    before, every other row is as before; when no row has that [job_id] the
    store is as before. *)
Theorem set_job_status_overwrites_or_noop
    (job_id status notes : string) (d : db) :
  applications (set_job_status job_id status notes d) = applications d /\
  length (jobs (set_job_status job_id status notes d)) = length (jobs d) /\
  (forall i r, nth_error (jobs d) i = Some r ->
     nth_error (jobs (set_job_status job_id status notes d)) i =
     Some (if Jobs.job_id r =? job_id
           then Jobs.mk (Jobs.id r) (Jobs.job_id r) (Jobs.title r)
                        (Jobs.company r) (Jobs.location r) (Jobs.url r)
                        (Jobs.posted_date r) status (Jobs.applied_at r) notes
           else r)) /\
  (job_exists job_id d = false -> set_job_status job_id status notes d = d).
Proof.
  repeat split.
  - apply length_map.
  - intros i r Hi. simpl. rewrite nth_error_map, Hi. reflexivity.
  - intros E. destruct d as [rows apps]. unfold set_job_status. simpl.
    f_equal. apply map_fixed. intros r Hr.
    destruct (Jobs.job_id r =? job_id) eqn:Er; [|reflexivity].
    apply String.eqb_eq in Er.
    assert (job_exists job_id (mkdb rows apps) = true); [|congruence].
    apply job_exists_iff. rewrite <- Er. now apply in_map.
Qed.

(** *** The reply matcher *)

Section ReplyMatcher.

Lemma map_replay_nil rows : map (replay []) rows = rows.
Proof. apply map_fixed. reflexivity. Qed.

Lemma map_replay_cons w ws rows :
  map (replay ws) (map (apply_write w) rows) = map (replay (w :: ws)) rows.
Proof. rewrite map_map. reflexivity. Qed.

(** One message: the calls are those for the fetched rows that pass the
    test, in order; a [bytes] subject raises at the first row with a
    company. *)
Lemma match_rows_spec frm subj rows d :
  match_rows frm subj rows d =
  match haystack frm subj with
  | Some hay =>
      let ws :=
        map (fun r => mkwrite (Jobs.job_id r) "replied" (reply_notes frm subj))
            (filter (fun r => PyStr.truthy (Jobs.company r) &&
                              PyStr.contains (PyStr.lower (Jobs.company r)) hay)
                    rows) in
      (mkdb (map (replay ws) (jobs d)) (applications d), ws, None)
  | None =>
      (d, [], if existsb (fun r => PyStr.truthy (Jobs.company r)) rows
              then Some "TypeError" else None)
  end.
Proof.
  revert d. induction rows as [|r rows IH]; intros d.
  - simpl. destruct (haystack frm subj); [|reflexivity].
    simpl. rewrite map_replay_nil. now destruct d.
  - simpl. destruct (PyStr.truthy (Jobs.company r)); simpl.
    + destruct (haystack frm subj) as [hay|] eqn:Eh; [|reflexivity].
      destruct (PyStr.contains (PyStr.lower (Jobs.company r)) hay).
      * rewrite IH. cbv zeta. rewrite set_job_status_jobs, map_replay_cons.
        reflexivity.
      * rewrite IH. reflexivity.
    + rewrite IH. destruct (haystack frm subj); reflexivity.
Qed.

Lemma writes_to_app jid ws1 ws2 :
  writes_to jid (ws1 ++ ws2) = (writes_to jid ws1 ++ writes_to jid ws2)%list.
Proof. apply filter_app. Qed.

(** Among rows with distinct job_ids, the calls built from the rows that
    pass [p] name a given row once when it passes and never otherwise. *)
Lemma writes_to_selected (p : Jobs.row -> bool) (mk : Jobs.row -> write)
    (rows : list Jobs.row) (r : Jobs.row) :
  (forall x, w_job_id (mk x) = Jobs.job_id x) ->
  NoDup (map Jobs.job_id rows) -> In r rows ->
  writes_to (Jobs.job_id r) (map mk (filter p rows)) =
  if p r then [mk r] else [].
Proof.
  intros Hmk. induction rows as [|x rows IH]; intros Hnd Hin; [contradiction|].
  simpl in Hnd. inversion Hnd as [|? ? Hx Hnd']; subst.
  assert (Hout : forall y, ~ In (Jobs.job_id y) (map Jobs.job_id rows) ->
                 writes_to (Jobs.job_id y) (map mk (filter p rows)) = []).
  { intros y Hy. apply filter_none. intros w Hw.
    apply in_map_iff in Hw. destruct Hw as [z [<- Hz]].
    apply filter_In in Hz. destruct Hz as [Hz _]. rewrite Hmk.
    apply String.eqb_neq. intros E. apply Hy. rewrite <- E. now apply in_map. }
  destruct Hin as [->|Hin].
  - simpl. destruct (p r); simpl.
    + unfold writes_to. simpl. rewrite Hmk, String.eqb_refl. f_equal.
      now apply Hout.
    + now apply Hout.
  - assert (Hne : (Jobs.job_id x =? Jobs.job_id r) = false).
    { apply String.eqb_neq. intros E. apply Hx. rewrite E. now apply in_map. }
    simpl. destruct (p x); simpl.
    + unfold writes_to. simpl. rewrite Hmk, Hne. now apply IH.
    + now apply IH.
Qed.

Lemma filter_twice {A} (p q : A -> bool) (l : list A) :
  filter q (filter p l) = filter (fun x => p x && q x) l.
Proof.
  induction l as [|a l IH]; [reflexivity|].
  simpl. destruct (p a); simpl; [destruct (q a)|]; now rewrite IH.
Qed.

Lemma scan_messages_cons data rest d :
  scan_messages (data :: rest) d =
  match match_rows (msg_from data) (msg_subject data)
                   (filter open_for_matching (jobs d)) d with
  | (d1, ws1, Some e) => (d1, ws1, Some e)
  | (d1, ws1, None) =>
      let '(d2, ws2, e) := scan_messages rest d1 in
      (d2, (ws1 ++ ws2)%list, e)
  end.
Proof.
  simpl. unfold msg_from, msg_subject.
  destruct (parse_headers data). reflexivity.
Qed.

(** The loop over the messages, row by row. *)
Lemma scan_messages_spec msgs :
  forall d d' ws e,
    unique_job_ids d ->
    scan_messages msgs d = (d', ws, e) ->
    jobs d' = map (replay ws) (jobs d) /\
    applications d' = applications d /\
    forall r, In r (jobs d) ->
      (writes_to (Jobs.job_id r) ws = [] \/
       exists m, In m msgs /\ open_for_matching r = true /\
                 row_matches m r = true /\
                 writes_to (Jobs.job_id r) ws =
                 [mkwrite (Jobs.job_id r) "replied"
                          (reply_notes (msg_from m) (msg_subject m))]) /\
      (e = None -> open_for_matching r = true ->
       (exists m, In m msgs /\ row_matches m r = true) ->
       writes_to (Jobs.job_id r) ws <> []).
Proof.
  induction msgs as [|m rest IH]; intros d d' ws e Hu Hscan.
  - simpl in Hscan. inversion Hscan; subst.
    rewrite map_replay_nil. repeat split; auto.
    intros _ _ [m [[] _]].
  - rewrite scan_messages_cons, match_rows_spec in Hscan.
    destruct (haystack (msg_from m) (msg_subject m)) as [hay|] eqn:Eh.
    + cbv zeta in Hscan.
      set (q := fun r : Jobs.row =>
                  PyStr.truthy (Jobs.company r) &&
                  PyStr.contains (PyStr.lower (Jobs.company r)) hay) in *.
      set (mk := fun r : Jobs.row =>
                   mkwrite (Jobs.job_id r) "replied"
                           (reply_notes (msg_from m) (msg_subject m))) in *.
      set (ws1 := map mk (filter q (filter open_for_matching (jobs d)))) in *.
      set (d1 := mkdb (map (replay ws1) (jobs d)) (applications d)) in *.
      cbv beta iota in Hscan.
      destruct (scan_messages rest d1) as [[d2 ws2] e2] eqn:Es.
      injection Hscan as <- <- <-.
      assert (Hu1 : unique_job_ids d1).
      { unfold unique_job_ids, d1. simpl. now rewrite map_job_id_replay. }
      destruct (IH _ _ _ _ Hu1 Es) as [Hj [Ha Hrows]].
      split; [|split; [exact Ha|]].
      { rewrite Hj. unfold d1. simpl. rewrite map_map.
        apply map_ext. intros r. now rewrite replay_app. }
      intros r Hr.
      assert (Hq : row_matches m r = q r).
      { unfold row_matches, q. now rewrite Eh. }
      assert (Hw1 : writes_to (Jobs.job_id r) ws1 =
                    if open_for_matching r && q r then [mk r] else []).
      { unfold ws1. rewrite filter_twice.
        apply writes_to_selected; [reflexivity | exact Hu | exact Hr]. }
      assert (Hr1 : In (replay ws1 r) (jobs d1)).
      { unfold d1. simpl. now apply in_map. }
      specialize (Hrows _ Hr1). rewrite replay_job_id in Hrows.
      destruct Hrows as [Hone Hall].
      rewrite writes_to_app, Hw1.
      destruct (open_for_matching r && q r) eqn:Eoq.
      * apply andb_true_iff in Eoq. destruct Eoq as [Eo Eq].
        assert (Hclosed : open_for_matching (replay ws1 r) = false).
        { rewrite replay_writes_to, Hw1. simpl.
          unfold apply_write. simpl. now rewrite String.eqb_refl. }
        assert (Hw2 : writes_to (Jobs.job_id r) ws2 = []).
        { destruct Hone as [H|[m' [_ [Ho _]]]]; [exact H | congruence]. }
        rewrite Hw2. split.
        -- right. exists m. repeat split; auto.
           ++ now left.
           ++ now rewrite Hq.
        -- intros _ _ _. discriminate.
      * assert (Hsame : replay ws1 r = r).
        { now rewrite replay_writes_to, Hw1. }
        rewrite Hsame in Hone, Hall. simpl. split.
        -- destruct Hone as [H|[m' [Hm' H]]]; [now left|].
           right. exists m'. split; [now right | exact H].
        -- intros He Ho [m' [[<-|Hm'] Hmatch]].
           ++ rewrite Hq in Hmatch. rewrite Ho, Hmatch in Eoq. discriminate.
           ++ apply Hall; auto. now exists m'.
    + assert (Hno : forall r, row_matches m r = false).
      { intros r. unfold row_matches. rewrite Eh. apply andb_false_r. }
      destruct (existsb _ _); cbv beta iota in Hscan.
      * inversion Hscan; subst. rewrite map_replay_nil.
        repeat split; auto. intros; discriminate.
      * destruct (scan_messages rest d) as [[d2 ws2] e2] eqn:Es.
        injection Hscan as <- <- <-.
        destruct (IH _ _ _ _ Hu Es) as [Hj [Ha Hrows]].
        split; [exact Hj | split; [exact Ha|]].
        intros r Hr. destruct (Hrows _ Hr) as [Hone Hall]. simpl. split.
        -- destruct Hone as [H|[m' [Hm' H]]]; [now left|].
           right. exists m'. split; [now right | exact H].
        -- intros He Ho [m' [[<-|Hm'] Hmatch]].
           ++ rewrite Hno in Hmatch. discriminate.
           ++ apply Hall; auto. now exists m'.
Qed.

End ReplyMatcher.

Section Reconcile.

Lemma row_matches_iff m r :
  row_matches m r = true <->
  Jobs.company r <> "" /\
  exists s, msg_subject m = Str s /\
    PyStr.contains (PyStr.lower (Jobs.company r))
                   ((PyStr.lower (msg_from m) ++ " ") ++ PyStr.lower s) = true.
Proof.
  unfold row_matches, haystack. split.
  - intros H. apply andb_true_iff in H. destruct H as [Hc Hm]. split.
    + intros E. rewrite E in Hc. discriminate.
    + destruct (msg_subject m) as [s|b]; simpl in Hm; [|discriminate].
      now exists s.
  - intros [Hc [s [-> Hm]]]. apply andb_true_iff. split.
    + destruct (Jobs.company r); [congruence | reflexivity].
    + exact Hm.
Qed.

Lemma reply_notes_str frm s :
  reply_notes frm (Str s) = "Email matched: " ++ s ++ " from " ++ frm.
Proof. reflexivity. Qed.

(** The call is the loop over the fetched messages; when it returns, the
    loop ran to its end. *)
Lemma check_gmail_and_update_scan cfg box d d' ws c :
  check_gmail_and_update cfg box d = (d', ws, c) ->
  exists e, scan_messages (fetched cfg box) d = (d', ws, e) /\
            (forall v, c = Returns v -> e = None).
Proof.
  unfold check_gmail_and_update, fetched.
  destruct (negb _).
  - intros H. injection H as <- <- <-. now exists None.
  - destruct box as [e|[|m msgs] logout].
    + intros H. injection H as <- <- <-. now exists None.
    + intros H. injection H as <- <- <-. now exists None.
    + destruct (scan_messages (m :: msgs) d) as [[d1 ws1] [e|]];
        intros H; injection H as <- <- <-.
      * exists (Some e). split; [reflexivity | discriminate].
      * now exists None.
Qed.

Lemma check_gmail_and_update_unique cfg box d :
  unique_job_ids d ->
  unique_job_ids (fst (fst (check_gmail_and_update cfg box d))).
Proof.
  intros Hu.
  destruct (check_gmail_and_update cfg box d) as [[d' ws] c] eqn:E.
  destruct (check_gmail_and_update_scan _ _ _ _ _ _ E) as [e [Hs _]].
  destruct (scan_messages_spec _ _ _ _ _ Hu Hs) as [Hj _].
  unfold unique_job_ids. simpl. now rewrite Hj, map_job_id_replay.
Qed.

End Reconcile.

(** *** C2: which jobs a reconcile pass marks *)

(** C2 (amended).  On a store with unique job_ids, take the row at any
    position before a call to [check_gmail_and_update].  Either the call
    issues no status update for its job and leaves the row as it was; or it
    issues exactly one, for a fetched message with a [str] Subject such that
    the row was open for matching (status not replied, hired or closed), its
    company is non-empty and its lower-cased company occurs in the lower-cased
    From text, one space, and the lower-cased Subject text: the row then has
    status "replied" and notes "Email matched: <subject> from <sender>" and is
    otherwise as it was.  A row that is not open for matching is never
    updated.  When the call returns, the job is updated exactly when it was
    open, its company is non-empty and some fetched message passes that
    test. *)
Theorem check_gmail_and_update_marks
    (cfg : config) (box : inbox) (d d' : db) (ws : list write)
    (c : completion) (i : nat) (r : Jobs.row) :
  unique_job_ids d ->
  check_gmail_and_update cfg box d = (d', ws, c) ->
  nth_error (jobs d) i = Some r ->
  ((writes_to (Jobs.job_id r) ws = [] /\ nth_error (jobs d') i = Some r) \/
   exists m s,
     In m (fetched cfg box) /\ msg_subject m = Str s /\
     open_for_matching r = true /\ Jobs.company r <> "" /\
     PyStr.contains (PyStr.lower (Jobs.company r))
                    ((PyStr.lower (msg_from m) ++ " ") ++ PyStr.lower s) = true /\
     writes_to (Jobs.job_id r) ws =
       [mkwrite (Jobs.job_id r) "replied"
                ("Email matched: " ++ s ++ " from " ++ msg_from m)] /\
     nth_error (jobs d') i =
       Some (restatus_row "replied"
                          ("Email matched: " ++ s ++ " from " ++ msg_from m) r)) /\
  (open_for_matching r = false ->
   writes_to (Jobs.job_id r) ws = [] /\ nth_error (jobs d') i = Some r) /\
  (forall v, c = Returns v ->
     (writes_to (Jobs.job_id r) ws <> [] <->
      open_for_matching r = true /\ Jobs.company r <> "" /\
      exists m s,
        In m (fetched cfg box) /\ msg_subject m = Str s /\
        PyStr.contains (PyStr.lower (Jobs.company r))
                       ((PyStr.lower (msg_from m) ++ " ") ++ PyStr.lower s) = true)).
Proof.
  intros Hu Hcall Hi.
  destruct (check_gmail_and_update_scan _ _ _ _ _ _ Hcall) as [e [Hs Hret]].
  destruct (scan_messages_spec _ _ _ _ _ Hu Hs) as [Hj [_ Hrows]].
  destruct (Hrows r (nth_error_In _ _ Hi)) as [Hone Hall].
  assert (Hrow : nth_error (jobs d') i =
                 Some (replay (writes_to (Jobs.job_id r) ws) r)).
  { rewrite Hj, (nth_error_map_replay ws _ _ _ Hi). f_equal.
    apply replay_writes_to. }
  assert (Hfirst :
    (writes_to (Jobs.job_id r) ws = [] /\ nth_error (jobs d') i = Some r) \/
    exists m s,
      In m (fetched cfg box) /\ msg_subject m = Str s /\
      open_for_matching r = true /\ Jobs.company r <> "" /\
      PyStr.contains (PyStr.lower (Jobs.company r))
                     ((PyStr.lower (msg_from m) ++ " ") ++ PyStr.lower s) = true /\
      writes_to (Jobs.job_id r) ws =
        [mkwrite (Jobs.job_id r) "replied"
                 ("Email matched: " ++ s ++ " from " ++ msg_from m)] /\
      nth_error (jobs d') i =
        Some (restatus_row "replied"
                           ("Email matched: " ++ s ++ " from " ++ msg_from m) r)).
  { destruct Hone as [Hnone|[m [Hm [Ho [Hmatch Hw]]]]].
    - left. split; [exact Hnone|]. now rewrite Hrow, Hnone.
    - right. apply row_matches_iff in Hmatch.
      destruct Hmatch as [Hc [s [Hsubj Hin]]].
      rewrite Hsubj, reply_notes_str in Hw.
      exists m, s. repeat split; auto.
      rewrite Hrow, Hw. simpl. unfold apply_write. simpl.
      now rewrite String.eqb_refl. }
  split; [exact Hfirst|]. split.
  - intros Hclosed.
    destruct Hfirst as [H|[m [s [_ [_ [Ho _]]]]]]; [exact H | congruence].
  - intros v Hv. specialize (Hret v Hv). split.
    + intros Hne.
      destruct Hfirst as [[H _]|[m [s [Hm [Hsubj [Ho [Hc [Hin _]]]]]]]];
        [contradiction|].
      split; [exact Ho|]. split; [exact Hc|]. now exists m, s.
    + intros [Ho [Hc [m [s [Hm [Hsubj Hin]]]]]].
      apply Hall; auto. exists m. split; [exact Hm|].
      apply row_matches_iff. split; [exact Hc|]. now exists s.
Qed.

Ltac unique_by_computation :=
  unfold unique_job_ids; simpl;
  repeat (constructor; [simpl; intuition discriminate|]); constructor.

Lemma check_gmail_and_update_marks_witness :
  exists d' ws,
    check_gmail_and_update manual_cfg (ImapMessages [interview_mail] None)
                           acme_store = (d', ws, Returns PyNone) /\
    unique_job_ids acme_store /\
    nth_error (jobs acme_store) 0 = Some acme_row /\
    (writes_to (Jobs.job_id acme_row) ws <> [] <->
     open_for_matching acme_row = true /\ Jobs.company acme_row <> "" /\
     exists m s,
       In m (fetched manual_cfg (ImapMessages [interview_mail] None)) /\
       msg_subject m = Str s /\
       PyStr.contains (PyStr.lower (Jobs.company acme_row))
                      ((PyStr.lower (msg_from m) ++ " ") ++ PyStr.lower s) = true).
Proof.
  eexists. eexists.
  split; [reflexivity|].
  split; [unique_by_computation|].
  split; [reflexivity|].
  refine (proj2 (proj2 (check_gmail_and_update_marks
            manual_cfg (ImapMessages [interview_mail] None) acme_store
            _ _ (Returns PyNone) 0 acme_row _ eq_refl eq_refl)) PyNone eq_refl).
  unique_by_computation.
Defined.

(** C2, as stated, fails: the job of company "Data Corp" is marked replied by
    a message from "alerts@bigdata" with subject "Corp newsletter", although
    its company does not occur in the concatenation of the From and Subject
    text of any fetched message. *)
Lemma reconcile_matches_across_the_space :
  exists d' ws,
    check_gmail_and_update manual_cfg (ImapMessages [newsletter_mail] None)
                           datacorp_store = (d', ws, Returns PyNone) /\
    nth_error (jobs datacorp_store) 0 = Some datacorp_row /\
    nth_error (jobs d') 0 =
      Some (restatus_row "replied"
              "Email matched: Corp newsletter from alerts@bigdata" datacorp_row) /\
    length (writes_to (Jobs.job_id datacorp_row) ws) = 1 /\
    existsb (fun m => claimed_match m datacorp_row)
            (fetched manual_cfg (ImapMessages [newsletter_mail] None)) = false.
Proof.
  eexists. eexists. repeat split; reflexivity.
Qed.

(** *** C6: a message without a Subject line *)

(** C6 (the code departs from it).  With the job of company "Acme" open, a
    fetched message that has a From line and no Subject line ends the call
    with a TypeError before the next message is read: the store is unchanged,
    although the message after it matches the job; without the first message
    the same call marks the job.  A message whose header block is absent is
    read as empty strings and the pass goes on. *)
Theorem missing_subject_aborts_reconcile :
  msg_subject mail_without_subject = Bytes "" /\
  check_gmail_and_update manual_cfg
    (ImapMessages [mail_without_subject; interview_mail] None) acme_store
  = (acme_store, [], Raises "TypeError") /\
  check_gmail_and_update manual_cfg
    (ImapMessages [interview_mail] None) acme_store
  = (set_job_status "Acme|SWE|https://x/1" "replied"
       "Email matched: Interview from hr@acme.com" acme_store,
     [mkwrite "Acme|SWE|https://x/1" "replied"
        "Email matched: Interview from hr@acme.com"],
     Returns PyNone) /\
  parse_headers (mkmessage None) = (Str "", "") /\
  check_gmail_and_update manual_cfg
    (ImapMessages [mkmessage None; interview_mail] None) acme_store
  = (set_job_status "Acme|SWE|https://x/1" "replied"
       "Email matched: Interview from hr@acme.com" acme_store,
     [mkwrite "Acme|SWE|https://x/1" "replied"
        "Email matched: Interview from hr@acme.com"],
     Returns PyNone).
Proof. repeat split; reflexivity. Qed.

(** *** C7: what the reconcile call returns *)

(** C7, as stated, fails: a call that updates one job returns [None], not the
    count 1. *)
Lemma check_gmail_and_update_returns_no_count :
  exists d' ws v,
    check_gmail_and_update manual_cfg (ImapMessages [interview_mail] None)
                           acme_store = (d', ws, Returns v) /\
    length ws = 1 /\ v <> PyInt (length ws).
Proof.
  eexists. eexists. eexists.
  split; [reflexivity|]. split; [reflexivity | discriminate].
Qed.

(** C7 (amended).  Every call to [check_gmail_and_update] that returns,
    returns [None]; the number of jobs it updated is not part of what it
    hands back. *)
Theorem check_gmail_and_update_returns_none
    (cfg : config) (box : inbox) (d d' : db) (ws : list write) (v : pyval) :
  check_gmail_and_update cfg box d = (d', ws, Returns v) -> v = PyNone.
Proof.
  unfold check_gmail_and_update.
  destruct (negb _); [intros H; now injection H as _ _ <-|].
  destruct box as [e|[|m msgs] logout];
    try (intros H; now injection H as _ _ <-); try discriminate.
  destruct (scan_messages (m :: msgs) d) as [[d1 ws1] [e|]]; [discriminate|].
  destruct logout; [discriminate|].
  intros H. now injection H as _ _ <-.
Qed.

Lemma check_gmail_and_update_returns_none_witness :
  exists d' ws v,
    check_gmail_and_update manual_cfg (ImapMessages [interview_mail] None)
                           acme_store = (d', ws, Returns v) /\
    v = PyNone.
Proof.
  eexists. eexists. exists PyNone.
  split; [reflexivity|].
  exact (check_gmail_and_update_returns_none
           manual_cfg (ImapMessages [interview_mail] None) acme_store
           _ _ PyNone eq_refl).
Defined.

(** *** C5: the outcomes of the apply executor *)

(** C5, as stated, fails: when the browser session cannot be started the
    result is "selenium_error", which is not in the specification's
    vocabulary. *)
Lemma apply_to_job_selenium_error :
  ApplyResult.result (apply_to_job acme_apply_job chrome_down) = "selenium_error" /\
  ~ In (ApplyResult.result (apply_to_job acme_apply_job chrome_down))
       claimed_results.
Proof.
  split; [reflexivity|]. simpl. intuition discriminate.
Qed.

(** C5 (amended).  For every job and every behaviour of the browser,
    [apply_to_job] returns a result whose result field is one of "applied",
    "manual_required", "no_url" and "selenium_error", and each of the four
    occurs.  It is "no_url" when the job has no URL (None or empty), and
    "selenium_error", with the exception's text as detail, when the job has a
    URL and the browser session cannot be started or the page cannot be
    loaded. *)
Theorem apply_to_job_results :
  (forall job b, In (ApplyResult.result (apply_to_job job b)) apply_results) /\
  (forall s, In s apply_results ->
     exists job b, ApplyResult.result (apply_to_job job b) = s) /\
  (forall job b, truthy_opt (ApplyJob.url job) = false ->
     apply_to_job job b = ApplyResult.mk "no_url" None) /\
  (forall job b e, truthy_opt (ApplyJob.url job) = true ->
     chrome b = Some e ->
     apply_to_job job b = ApplyResult.mk "selenium_error" (Some e)) /\
  (forall job b e, truthy_opt (ApplyJob.url job) = true ->
     chrome b = None -> get b = Some e ->
     apply_to_job job b = ApplyResult.mk "selenium_error" (Some e)).
Proof.
  repeat split.
  - intros job b. unfold apply_to_job, manual_required, apply_results.
    destruct (truthy_opt (ApplyJob.url job)); simpl; [|tauto].
    destruct (chrome b); simpl; [tauto|].
    destruct (get b); simpl; [tauto|].
    destruct (find_file_input b), (send_keys b), (quit_after_click b),
      (quit_in_handler b); simpl; tauto.
  - intros s [<-|[<-|[<-|[<-|[]]]]].
    + now exists acme_apply_job, browser_ok.
    + now exists acme_apply_job,
        (mkbrowser None None (Some "no such element") None None None).
    + now exists (ApplyJob.mk "j" "t" "c" None), browser_ok.
    + now exists acme_apply_job, chrome_down.
  - intros job b H. unfold apply_to_job. now rewrite H.
  - intros job b e H Hc. unfold apply_to_job. now rewrite H, Hc.
  - intros job b e H Hc Hg. unfold apply_to_job. now rewrite H, Hc, Hg.
Qed.

(** *** C9: the ingestion filter *)

Section Ingestion.

Lemma prefix_iff (p s : string) :
  prefix p s = true <-> exists rest, s = p ++ rest.
Proof.
  revert s. induction p as [|c p IH]; intros s.
  - simpl. split; [intros _; now exists s | now destruct s].
  - destruct s as [|c' s]; simpl.
    + split; [discriminate | intros [rest H]; discriminate].
    + destruct (ascii_dec c c') as [->|Hne].
      * rewrite IH. split; intros [rest H]; exists rest.
        -- now rewrite H.
        -- now injection H.
      * split; [discriminate|]. intros [rest H]. injection H as H _.
        congruence.
Qed.

(** [needle in hay] is the substring relation. *)
Lemma contains_iff (needle hay : string) :
  PyStr.contains needle hay = true <->
  exists before after, hay = before ++ needle ++ after.
Proof.
  induction hay as [|c hay IH].
  - cbn [PyStr.contains]. rewrite orb_false_r, prefix_iff. split.
    + intros [rest H]. now exists "", rest.
    + intros [before [after H]]. destruct before; [now exists after|].
      discriminate.
  - cbn [PyStr.contains]. rewrite orb_true_iff, IH, prefix_iff. split.
    + intros [[rest H]|[before [after H]]].
      * now exists "", rest.
      * exists (String c before), after. simpl. now rewrite H.
    + intros [before [after H]]. destruct before as [|c' before].
      * left. now exists after.
      * right. injection H as _ H. now exists before, after.
Qed.

Lemma posted_recently_claimed posted :
  posted_recently posted = claimed_recent posted.
Proof.
  unfold posted_recently, claimed_recent. simpl. rewrite orb_false_r.
  destruct posted; [reflexivity|]. simpl PyStr.truthy.
  rewrite andb_true_l, orb_assoc. reflexivity.
Qed.

End Ingestion.

(** *** The draft-and-apply stage *)

Section DraftAndApply.

Variable cfg : config.
Variable w : nat -> job_world.

Lemma draft_and_apply_job_eq jw r d :
  draft_and_apply_job cfg jw r d =
  match bind_text (job_cover cfg jw r) with
  | inr error => (d, [], Some error)
  | inl cover =>
      (set_job_status (Jobs.job_id r) (w_status (job_write cfg jw r))
                      (w_notes (job_write cfg jw r))
         (mkdb (jobs d)
               (applications d ++
                [job_application cfg jw r cover (S (length (applications d)))])),
       [job_write cfg jw r], None)
  end.
Proof.
  unfold draft_and_apply_job, job_write, job_application, job_cover,
    record_application.
  destruct (APPLY_MODE cfg =? "auto");
    destruct (bind_text _); try reflexivity.
  destruct (ApplyResult.result _ =? "applied"); [reflexivity|].
  destruct (ApplyResult.result _ =? "manual_required"); reflexivity.
Qed.

Lemma job_write_job_id jw r : w_job_id (job_write cfg jw r) = Jobs.job_id r.
Proof.
  unfold job_write. destruct (APPLY_MODE cfg =? "auto"); [|reflexivity].
  destruct (ApplyResult.result _ =? "applied"); [reflexivity|].
  destruct (ApplyResult.result _ =? "manual_required"); reflexivity.
Qed.

Lemma job_write_not_new jw r : w_status (job_write cfg jw r) <> "new".
Proof.
  unfold job_write. destruct (APPLY_MODE cfg =? "auto"); [|discriminate].
  destruct (ApplyResult.result _ =? "applied"); [discriminate|].
  destruct (ApplyResult.result _ =? "manual_required"); discriminate.
Qed.

Lemma job_write_eta jw r :
  job_write cfg jw r =
  mkwrite (Jobs.job_id r) (w_status (job_write cfg jw r))
          (w_notes (job_write cfg jw r)).
Proof.
  rewrite <- (job_write_job_id jw r). now destruct (job_write cfg jw r).
Qed.

(** A selection of rows with distinct job_ids has distinct job_ids. *)
Lemma selected_rows_unique (keep : Jobs.row -> bool) (rows : list Jobs.row) :
  NoDup (map Jobs.job_id rows) ->
  NoDup (map Jobs.job_id (filter keep rows)).
Proof.
  intros Hnd. induction rows as [|x rows IH]; simpl; [constructor|].
  apply NoDup_cons_iff in Hnd. destruct Hnd as [Hx Hnd].
  destruct (keep x); simpl; [|now apply IH].
  apply NoDup_cons; [|now apply IH].
  rewrite in_map_iff. intros [y [Hy Hin]].
  apply filter_In in Hin. apply Hx. rewrite <- Hy.
  apply in_map. exact (proj1 Hin).
Qed.

(** Distinct job_ids: the job_id names the row. *)
Lemma job_id_names_row (rows : list Jobs.row) (x y : Jobs.row) :
  NoDup (map Jobs.job_id rows) -> In x rows -> In y rows ->
  Jobs.job_id x = Jobs.job_id y -> x = y.
Proof.
  intros Hnd Hx Hy E.
  pose proof (filter_job_id_unique rows x Hnd Hx) as Fx.
  pose proof (filter_job_id_unique rows y Hnd Hy) as Fy.
  rewrite E, Fy in Fx. now injection Fx.
Qed.

(** One step of the loop, on what the loop returns. *)
Lemma draft_and_apply_rows_cons r0 rows i d d' ws e :
  draft_and_apply_rows cfg w i (r0 :: rows) d = (d', ws, e) ->
  (exists error,
     bind_text (job_cover cfg (w i) r0) = inr error /\
     d' = d /\ ws = [] /\ e = Some error) \/
  (exists cover d2 ws2,
     bind_text (job_cover cfg (w i) r0) = inl cover /\
     draft_and_apply_rows cfg w (S i) rows
       (set_job_status (Jobs.job_id r0) (w_status (job_write cfg (w i) r0))
                       (w_notes (job_write cfg (w i) r0))
          (mkdb (jobs d)
                (applications d ++
                 [job_application cfg (w i) r0 cover
                                  (S (length (applications d)))])))
     = (d2, ws2, e) /\
     d' = d2 /\ ws = job_write cfg (w i) r0 :: ws2).
Proof.
  cbn [draft_and_apply_rows]. rewrite draft_and_apply_job_eq.
  destruct (bind_text (job_cover cfg (w i) r0)) as [cover|error].
  - destruct (draft_and_apply_rows cfg w (S i) rows _) as [[d2 ws2] e2] eqn:E.
    intros H. injection H as <- <- <-. right.
    exists cover, d2, ws2. repeat split; try reflexivity. exact E.
  - intros H. injection H as <- <- <-. left. now exists error.
Qed.

(** However the loop ends: the store's jobs are the old ones with the loop's
    status updates replayed, and none of the updates is to "new". *)
Lemma draft_and_apply_rows_replay rows :
  forall i d d' ws e,
    draft_and_apply_rows cfg w i rows d = (d', ws, e) ->
    jobs d' = map (replay ws) (jobs d) /\
    Forall (fun wr => w_status wr <> "new") ws.
Proof.
  induction rows as [|r0 rows IH]; intros i d d' ws e Hrun.
  - cbn in Hrun. injection Hrun as <- <- _.
    rewrite map_replay_nil. now split.
  - apply draft_and_apply_rows_cons in Hrun.
    destruct Hrun
      as [[error [_ [-> [-> _]]]]|[cover [d2 [ws2 [_ [Hrest [-> ->]]]]]]].
    + rewrite map_replay_nil. now split.
    + destruct (IH _ _ _ _ _ Hrest) as [Hj Hnew]. split.
      * rewrite Hj, set_job_status_jobs. cbn [jobs].
        rewrite <- job_write_eta. apply map_replay_cons.
      * constructor; [apply job_write_not_new | exact Hnew].
Qed.

(** The loop works through a prefix of the fetched rows, in their order: one
    status update and one appended application row per row of the prefix.
    The prefix is all the rows when the loop ends without an exception;
    otherwise the row after the prefix is one whose cover text cannot be
    bound. *)
Lemma draft_and_apply_rows_order rows :
  forall i d d' ws e,
    draft_and_apply_rows cfg w i rows d = (d', ws, e) ->
    exists n added,
      n <= length rows /\
      (e = None -> n = length rows) /\
      (e <> None ->
       exists r error,
         nth_error rows n = Some r /\
         bind_text (job_cover cfg (w (i + n)) r) = inr error /\
         e = Some error) /\
      map w_job_id ws = map Jobs.job_id (firstn n rows) /\
      applications d' = (applications d ++ added)%list /\
      map Applications.job_id added = map Jobs.job_id (firstn n rows).
Proof.
  induction rows as [|r0 rows IH]; intros i d d' ws e Hrun.
  - cbn in Hrun. injection Hrun as <- <- <-.
    exists 0, []. rewrite app_nil_r.
    repeat split; try reflexivity; congruence.
  - apply draft_and_apply_rows_cons in Hrun.
    destruct Hrun
      as [[error [Hb [-> [-> ->]]]]|[cover [d2 [ws2 [_ [Hrest [-> ->]]]]]]].
    + exists 0, []. rewrite app_nil_r, Nat.add_0_r. cbn.
      repeat split; try reflexivity; try lia; try discriminate.
      intros _. now exists r0, error.
    + destruct (IH _ _ _ _ _ Hrest)
        as [n [added [Hn [He [Hab [Hw [Ha Hids]]]]]]].
      exists (S n),
        (job_application cfg (w i) r0 cover (S (length (applications d)))
         :: added).
      cbn [length firstn map nth_error]. repeat split.
      * lia.
      * intros E. now rewrite (He E).
      * intros E. rewrite Nat.add_succ_r. exact (Hab E).
      * now rewrite job_write_job_id, Hw.
      * rewrite Ha. unfold set_job_status. cbn [applications].
        now rewrite <- app_assoc.
      * cbn [job_application Applications.job_id]. now rewrite Hids.
Qed.

Lemma draft_and_apply_rows_statuses rows :
  forall i d d' ws e,
    draft_and_apply_rows cfg w i rows d = (d', ws, e) ->
    Forall (fun wr => In (w_status wr) ["queued_manual"; "applied"; "error"]) ws.
Proof.
  induction rows as [|r0 rows IH]; intros i d d' ws e Hrun.
  - cbn in Hrun. injection Hrun as _ <- _. constructor.
  - apply draft_and_apply_rows_cons in Hrun.
    destruct Hrun
      as [[error [_ [_ [-> _]]]]|[cover [d2 [ws2 [_ [Hrest [_ ->]]]]]]];
      [constructor|].
    constructor; [|exact (IH _ _ _ _ _ Hrest)].
    unfold job_write. destruct (APPLY_MODE cfg =? "auto"); [|simpl; tauto].
    destruct (ApplyResult.result _ =? "applied"); [simpl; tauto|].
    destruct (ApplyResult.result _ =? "manual_required"); simpl; tauto.
Qed.

(** A loop that ends without an exception, job by job: a fetched row's job_id
    is named by exactly one update and one appended row, those of its own
    iteration [k], and the appended row holds the cover text as bound. *)
Lemma draft_and_apply_rows_spec rows :
  forall i d d' ws,
    NoDup (map Jobs.job_id rows) ->
    draft_and_apply_rows cfg w i rows d = (d', ws, None) ->
    exists added,
      applications d' = (applications d ++ added)%list /\
      (forall r, In r rows ->
         exists k cover id,
           bind_text (job_cover cfg (w k) r) = inl cover /\
           writes_to (Jobs.job_id r) ws = [job_write cfg (w k) r] /\
           applications_of (Jobs.job_id r) added =
             [job_application cfg (w k) r cover id]) /\
      (forall jid, ~ In jid (map Jobs.job_id rows) ->
         writes_to jid ws = [] /\ applications_of jid added = []).
Proof.
  induction rows as [|r0 rows IH]; intros i d d' ws Hnd Hrun.
  - cbn in Hrun. injection Hrun as <- <-.
    exists []. rewrite app_nil_r. repeat split; intros; contradiction.
  - apply draft_and_apply_rows_cons in Hrun.
    destruct Hrun
      as [[error [_ [_ [_ H]]]]|[cover [d2 [ws2 [Hb [Hrest [-> ->]]]]]]];
      [discriminate|].
    cbn [map] in Hnd. apply NoDup_cons_iff in Hnd. destruct Hnd as [Hr0 Hnd].
    destruct (IH _ _ _ _ Hnd Hrest) as [added [Ha [Hin Hout]]].
    set (a0 := job_application cfg (w i) r0 cover
                 (S (length (applications d)))) in *.
    exists (a0 :: added). split; [|split].
    + rewrite Ha. unfold set_job_status. cbn [applications].
      now rewrite <- app_assoc.
    + intros r [<-|Hr].
      * destruct (Hout _ Hr0) as [Hw Happ].
        exists i, cover, (S (length (applications d))).
        split; [exact Hb|].
        unfold writes_to, applications_of in *. cbn [filter].
        rewrite job_write_job_id. cbn [a0 job_application Applications.job_id].
        rewrite String.eqb_refl, Hw, Happ. split; reflexivity.
      * destruct (Hin _ Hr) as [k [c [id [Hbk [Hw Happ]]]]].
        exists k, c, id. split; [exact Hbk|].
        assert (Hne : (Jobs.job_id r0 =? Jobs.job_id r) = false).
        { apply String.eqb_neq. intros E. apply Hr0. rewrite E.
          now apply in_map. }
        unfold writes_to, applications_of in *. cbn [filter].
        rewrite job_write_job_id. cbn [a0 job_application Applications.job_id].
        rewrite Hne, Hw, Happ. split; reflexivity.
    + intros jid Hjid. cbn [map In] in Hjid.
      assert (Hne : (Jobs.job_id r0 =? jid) = false).
      { apply String.eqb_neq. tauto. }
      destruct (Hout jid) as [Hw Happ]; [tauto|].
      unfold writes_to, applications_of in *. cbn [filter].
      rewrite job_write_job_id. cbn [a0 job_application Applications.job_id].
      rewrite Hne, Hw, Happ. split; reflexivity.
Qed.

Lemma draft_and_apply_rows_hits rows :
  forall i d d' ws,
    draft_and_apply_rows cfg w i rows d = (d', ws, None) ->
    forall r, In r rows -> exists wr, In wr ws /\ w_job_id wr = Jobs.job_id r.
Proof.
  induction rows as [|r0 rows IH]; intros i d d' ws Hrun r Hr; [contradiction|].
  apply draft_and_apply_rows_cons in Hrun.
  destruct Hrun
    as [[error [_ [_ [_ H]]]]|[cover [d2 [ws2 [_ [Hrest [_ ->]]]]]]];
    [discriminate|].
  destruct Hr as [<-|Hr].
  - exists (job_write cfg (w i) r0). split; [now left|].
    apply job_write_job_id.
  - destruct (IH _ _ _ _ Hrest r Hr) as [wr [Hin Hid]].
    exists wr. split; [now right | exact Hid].
Qed.

(** The loop ends without an exception when no endpoint is configured, or
    every answer of the endpoint is one that sqlite3 can bind. *)
Lemma draft_and_apply_rows_returns rows :
  forall i d,
    PyStr.truthy (LOCAL_LLM_ENDPOINT cfg) = false \/
    (forall k error, llm (w k) <> LlmValue (CoverUnbindable error)) ->
    snd (draft_and_apply_rows cfg w i rows d) = None.
Proof.
  induction rows as [|r0 rows IH]; intros i d Hok; [reflexivity|].
  destruct (draft_and_apply_rows cfg w i (r0 :: rows) d) as [[d' ws] e] eqn:E.
  apply draft_and_apply_rows_cons in E.
  destruct E as [[error [Hb _]]|[cover [d2 [ws2 [_ [Hrest [_ _]]]]]]].
  - exfalso. revert Hb. unfold job_cover, local_llm_generate.
    destruct Hok as [-> | Hok]; [discriminate|]. specialize (Hok i).
    destruct (PyStr.truthy (LOCAL_LLM_ENDPOINT cfg)); [|discriminate].
    destruct (llm (w i)) as [[t|t|t]|]; try discriminate.
    now destruct (Hok t).
  - cbn [snd]. pose proof (f_equal snd Hrest) as Hs. cbn [snd] in Hs.
    rewrite <- Hs. now apply IH.
Qed.

Lemma draft_and_apply_unique d :
  unique_job_ids d -> unique_job_ids (fst (fst (draft_and_apply cfg w d))).
Proof.
  intros Hu. unfold draft_and_apply.
  destruct (draft_and_apply_rows cfg w 0 _ d) as [[d' ws] e] eqn:E.
  destruct (draft_and_apply_rows_replay _ _ _ _ _ _ E) as [Hj _].
  unfold unique_job_ids. cbn [fst]. now rewrite Hj, map_job_id_replay.
Qed.

End DraftAndApply.

(** *** C4: the draft-and-apply stage, job by job *)

(** C4 (the code departs from it).  With an endpoint configured that answers
    {"text": ["Dear Acme"]}, line 120 hands the list back as the cover text,
    the INSERT of [record_application] cannot bind it and raises, and no [try]
    surrounds the loop of stage 3: the stage ends there, the job that was
    "new" is still "new", no application row is recorded and no status is
    set; [run_full_cycle] ends with the exception and does not reach the
    email check.  When the endpoint answers {"text": "Dear Acme"} instead, the
    same stage records one application row and queues the job. *)
Theorem unbindable_cover_aborts_stage :
  local_llm_generate llm_cfg (llm (list_reply_world 0))
    (cover_prompt llm_cfg "SWE" "Acme") = CoverUnbindable list_not_bound /\
  draft_and_apply llm_cfg list_reply_world acme_store =
    (acme_store, [], Some list_not_bound) /\
  jobs acme_store = [acme_row] /\
  Jobs.status acme_row = "new" /\
  applications acme_store = [] /\
  run_full_cycle llm_cfg list_reply_cycle acme_store =
    (acme_store, Raises list_not_bound) /\
  draft_and_apply llm_cfg text_reply_world acme_store =
    (mkdb [Jobs.mk 1 "Acme|SWE|https://x/1" "SWE" "Acme" "India"
                   (Some "https://x/1") "2026-01-01" "queued_manual" None
                   "Awaiting manual approval to apply"]
          [Applications.mk 1 "Acme|SWE|https://x/1" "Dear Acme"
                           "./resume/my_resume.pdf" "2026-01-02T00:00:00"
                           "queued_for_manual"],
     [mkwrite "Acme|SWE|https://x/1" "queued_manual"
              "Awaiting manual approval to apply"],
     None).
Proof. repeat split; reflexivity. Qed.

(** *** C3: no way back to "new" *)

Section Monotone.

Lemma replay_not_new ws r :
  Forall (fun wr => w_status wr <> "new") ws ->
  Jobs.status r <> "new" -> Jobs.status (replay ws r) <> "new".
Proof.
  intros Hws. revert r. induction Hws as [|wr ws Hwr _ IH]; intros r Hr.
  - exact Hr.
  - change (Jobs.status (replay ws (apply_write wr r)) <> "new").
    apply IH. unfold apply_write. now destruct (_ =? _).
Qed.

Lemma add_or_update_job_keeps job d i r :
  nth_error (jobs d) i = Some r ->
  exists r', nth_error (jobs (add_or_update_job job d)) i = Some r' /\
             Jobs.job_id r' = Jobs.job_id r /\
             Jobs.status r' = Jobs.status r.
Proof.
  intros Hi. unfold add_or_update_job.
  destruct (job_exists (JobDict.job_id job) d); simpl.
  - rewrite nth_error_map, Hi. simpl.
    destruct (Jobs.job_id r =? JobDict.job_id job);
      eexists; repeat split; reflexivity.
  - exists r. repeat split.
    rewrite nth_error_app1; [exact Hi|].
    apply nth_error_Some. congruence.
Qed.

Lemma upsert_all_keeps found :
  forall d i r,
    nth_error (jobs d) i = Some r ->
    exists r', nth_error (jobs (upsert_all found d)) i = Some r' /\
               Jobs.job_id r' = Jobs.job_id r /\
               Jobs.status r' = Jobs.status r.
Proof.
  induction found as [|job found IH]; intros d i r Hi.
  - now exists r.
  - destruct (add_or_update_job_keeps job d i r Hi) as [r1 [H1 [Hid1 Hst1]]].
    destruct (IH _ _ _ H1) as [r2 [H2 [Hid2 Hst2]]].
    exists r2. repeat split; [exact H2 | congruence | congruence].
Qed.

Lemma upsert_all_unique found :
  forall d, unique_job_ids d -> unique_job_ids (upsert_all found d).
Proof.
  induction found as [|job found IH]; intros d Hu; [exact Hu|].
  apply IH. now apply add_or_update_job_unique.
Qed.

(** The loop over the messages, without any assumption on the store: the
    jobs after are the jobs before with the loop's updates replayed, none of
    which is to "new". *)
Lemma scan_messages_replay msgs :
  forall d d' ws e,
    scan_messages msgs d = (d', ws, e) ->
    jobs d' = map (replay ws) (jobs d) /\
    Forall (fun wr => w_status wr <> "new") ws.
Proof.
  induction msgs as [|m rest IH]; intros d d' ws e Hscan.
  - simpl in Hscan. injection Hscan as <- <- <-.
    rewrite map_replay_nil. now split.
  - rewrite scan_messages_cons, match_rows_spec in Hscan.
    destruct (haystack (msg_from m) (msg_subject m)) as [hay|].
    + cbv zeta beta iota in Hscan.
      destruct (scan_messages rest _) as [[d2 ws2] e2] eqn:Es.
      injection Hscan as <- <- <-.
      destruct (IH _ _ _ _ Es) as [Hj Hnew]. split.
      * rewrite Hj. simpl jobs. rewrite map_map.
        apply map_ext. intros r. now rewrite replay_app.
      * apply Forall_app. split; [|exact Hnew].
        apply Forall_forall. intros wr Hwr. apply in_map_iff in Hwr.
        destruct Hwr as [x [<- _]]. discriminate.
    + destruct (existsb _ _); cbv beta iota in Hscan.
      * injection Hscan as <- <- <-. rewrite map_replay_nil. now split.
      * destruct (scan_messages rest d) as [[d2 ws2] e2] eqn:Es.
        injection Hscan as <- <- <-. exact (IH _ _ _ _ Es).
Qed.

Lemma replay_keeps ws rows i r :
  Forall (fun wr => w_status wr <> "new") ws ->
  nth_error rows i = Some r ->
  exists r', nth_error (map (replay ws) rows) i = Some r' /\
             Jobs.job_id r' = Jobs.job_id r /\
             (Jobs.status r <> "new" -> Jobs.status r' <> "new").
Proof.
  intros Hws Hi. exists (replay ws r).
  split; [now apply nth_error_map_replay|].
  split; [apply replay_job_id | now apply replay_not_new].
Qed.

Lemma check_gmail_and_update_keeps cfg box d i r :
  nth_error (jobs d) i = Some r ->
  exists r',
    nth_error (jobs (fst (fst (check_gmail_and_update cfg box d)))) i = Some r' /\
    Jobs.job_id r' = Jobs.job_id r /\
    (Jobs.status r <> "new" -> Jobs.status r' <> "new").
Proof.
  intros Hi.
  destruct (check_gmail_and_update cfg box d) as [[d' ws] c] eqn:E.
  destruct (check_gmail_and_update_scan _ _ _ _ _ _ E) as [e [Hs _]].
  destruct (scan_messages_replay _ _ _ _ _ Hs) as [Hj Hnew].
  simpl. rewrite Hj. now apply replay_keeps.
Qed.

Lemma draft_and_apply_keeps cfg w d i r :
  nth_error (jobs d) i = Some r ->
  exists r',
    nth_error (jobs (fst (fst (draft_and_apply cfg w d)))) i = Some r' /\
    Jobs.job_id r' = Jobs.job_id r /\
    (Jobs.status r <> "new" -> Jobs.status r' <> "new").
Proof.
  intros Hi. unfold draft_and_apply.
  destruct (draft_and_apply_rows cfg w 0 _ d) as [[d' ws] e] eqn:E.
  destruct (draft_and_apply_rows_replay _ _ _ _ _ _ _ _ E) as [Hj Hnew].
  cbn [fst]. rewrite Hj. now apply replay_keeps.
Qed.

(** The store a cycle leaves is the one stage 3 left when stage 3 raised, and
    the one the email check left otherwise. *)
Lemma run_full_cycle_cases cfg w d :
  fst (run_full_cycle cfg w d) =
    fst (fst (draft_and_apply cfg (per_job w)
                (upsert_all (jobs_found cfg w) d))) \/
  fst (run_full_cycle cfg w d) =
    fst (fst (check_gmail_and_update cfg (mailbox w)
                (fst (fst (draft_and_apply cfg (per_job w)
                             (upsert_all (jobs_found cfg w) d)))))).
Proof.
  unfold run_full_cycle.
  destruct (draft_and_apply cfg (per_job w) _) as [[d2 ws2] [e|]];
    [now left | now right].
Qed.

Lemma run_op_keeps o d i r :
  nth_error (jobs d) i = Some r ->
  exists r', nth_error (jobs (run_op o d)) i = Some r' /\
             Jobs.job_id r' = Jobs.job_id r /\
             (Jobs.status r <> "new" -> Jobs.status r' <> "new").
Proof.
  intros Hi. destruct o as [job|cfg w|cfg box]; simpl.
  - destruct (add_or_update_job_keeps job d i r Hi) as [r' [H [Hid Hst]]].
    exists r'. repeat split; [exact H | exact Hid | congruence].
  - destruct (upsert_all_keeps (jobs_found cfg w) d i r Hi)
      as [r1 [H1 [Hid1 Hst1]]].
    destruct (draft_and_apply_keeps cfg (per_job w) _ i r1 H1)
      as [r2 [H2 [Hid2 Hst2]]].
    destruct (run_full_cycle_cases cfg w d) as [-> | ->].
    + exists r2. split; [exact H2|]. split; [congruence|].
      intros Hne. apply Hst2. congruence.
    + destruct (check_gmail_and_update_keeps cfg (mailbox w) _ i r2 H2)
        as [r3 [H3 [Hid3 Hst3]]].
      exists r3. split; [exact H3|]. split; [congruence|].
      intros Hne. apply Hst3, Hst2. congruence.
  - now apply check_gmail_and_update_keeps.
Qed.

End Monotone.

(** C3.  Take the row at any position of the store, with a status other than
    "new" (in particular "replied", "hired" or "closed").  After any sequence
    of upserts, full cycles and reconcile calls, whatever the outside answers
    in them, the same position holds a row of the same job whose status is
    not "new". *)
Theorem status_never_back_to_new
    (ops : list op) (d : db) (i : nat) (r : Jobs.row) :
  nth_error (jobs d) i = Some r ->
  Jobs.status r <> "new" ->
  exists r',
    nth_error (jobs (run_ops ops d)) i = Some r' /\
    Jobs.job_id r' = Jobs.job_id r /\
    Jobs.status r' <> "new".
Proof.
  revert d r. induction ops as [|o ops IH]; intros d r Hi Hst.
  - now exists r.
  - destruct (run_op_keeps o d i r Hi) as [r1 [H1 [Hid1 Hst1]]].
    destruct (IH _ _ H1 (Hst1 Hst)) as [r2 [H2 [Hid2 Hst2]]].
    exists r2. split; [exact H2|]. split; [congruence | exact Hst2].
Qed.

Lemma status_never_back_to_new_witness :
  nth_error (jobs two_jobs_store) 1 = Some datacorp_replied_row /\
  exists r',
    nth_error
      (jobs (run_ops [Upsert datacorp;
                      FullCycle manual_cfg sample_cycle;
                      Reconcile manual_cfg (ImapMessages [newsletter_mail] None)]
                     two_jobs_store)) 1 = Some r' /\
    Jobs.job_id r' = Jobs.job_id datacorp_replied_row /\
    Jobs.status r' <> "new".
Proof.
  split; [reflexivity|].
  apply (status_never_back_to_new
           [Upsert datacorp;
            FullCycle manual_cfg sample_cycle;
            Reconcile manual_cfg (ImapMessages [newsletter_mail] None)]
           two_jobs_store 1 datacorp_replied_row).
  - reflexivity.
  - discriminate.
Defined.

(** *** The UNIQUE constraint is an invariant *)

Lemma run_op_unique (o : op) (d : db) :
  unique_job_ids d -> unique_job_ids (run_op o d).
Proof.
  intros Hu. destruct o as [job|cfg w|cfg box]; simpl.
  - now apply add_or_update_job_unique.
  - assert (H : unique_job_ids
                 (fst (fst (draft_and_apply cfg (per_job w)
                              (upsert_all (jobs_found cfg w) d))))).
    { apply draft_and_apply_unique. now apply upsert_all_unique. }
    destruct (run_full_cycle_cases cfg w d) as [-> | ->]; [exact H|].
    now apply check_gmail_and_update_unique.
  - now apply check_gmail_and_update_unique.
Qed.

(** Every store reached from the empty one has unique job_ids. *)
Lemma reachable_store_unique (ops : list op) :
  unique_job_ids (run_ops ops init_db).
Proof.
  assert (H : forall d, unique_job_ids d -> unique_job_ids (run_ops ops d)).
  { induction ops as [|o ops IH]; intros d Hu; [exact Hu|].
    apply IH. now apply run_op_unique. }
  apply H. constructor.
Qed.

Lemma add_or_update_job_upserts_witness :
  job_exists (JobDict.job_id acme) init_db = false /\
  unique_job_ids init_db /\
  jobs (add_or_update_job acme init_db) = [acme_row] /\
  length (rows_of (JobDict.job_id acme)
            (add_or_update_job acme (add_or_update_job acme init_db))) = 1.
Proof.
  split; [reflexivity|].
  split; [constructor|].
  split; [reflexivity|].
  apply (proj2 (proj2 (proj2 (add_or_update_job_upserts acme init_db)))).
  constructor.
Defined.

Lemma set_job_status_overwrites_or_noop_witness :
  job_exists "no such job" acme_store = false /\
  set_job_status "no such job" "applied" "n" acme_store = acme_store.
Proof.
  split; [reflexivity|].
  apply (proj2 (proj2 (proj2
           (set_job_status_overwrites_or_noop "no such job" "applied" "n"
                                              acme_store)))).
  reflexivity.
Defined.

(** *** The scenario of the specification, run on the model *)

(** A listing posted "today" is ingested; a cycle in manual mode queues it
    with one application row "queued_for_manual"; a message from hr@acme.com
    with subject "Interview" then makes the reply matcher mark it replied. *)
Example scenario_ingest_queue_reply :
  let d1 := run_ops [FullCycle manual_cfg scenario_cycle] init_db in
  let d2 := run_ops [Reconcile manual_cfg (ImapMessages [interview_mail] None)] d1 in
  map Jobs.status (jobs d1) = ["queued_manual"] /\
  map Applications.result (applications d1) = ["queued_for_manual"] /\
  map Jobs.status (jobs d2) = ["replied"] /\
  map Jobs.notes (jobs d2) = ["Email matched: Interview from hr@acme.com"] /\
  applications d2 = applications d1.
Proof. repeat split; reflexivity. Qed.

(** * Further properties of the code *)

(** *** What a cycle leaves behind *)

Section CycleFacts.

Lemma replay_hit ws r :
  Forall (fun wr => w_status wr <> "new") ws ->
  (exists wr, In wr ws /\ w_job_id wr = Jobs.job_id r) ->
  Jobs.status (replay ws r) <> "new".
Proof.
  intros Hws. revert r. induction Hws as [|w0 ws Hw0 Hws IH]; intros r [wr [Hin Hid]].
  - contradiction.
  - change (Jobs.status (replay ws (apply_write w0 r)) <> "new").
    destruct (Jobs.job_id r =? w_job_id w0) eqn:E.
    + apply replay_not_new; [exact Hws|].
      unfold apply_write. now rewrite E.
    + destruct Hin as [->|Hin].
      * apply String.eqb_neq in E. congruence.
      * apply IH. exists wr. split; [exact Hin|].
        now rewrite apply_write_job_id.
Qed.

Lemma draft_and_apply_drains cfg w d d' ws :
  draft_and_apply cfg w d = (d', ws, None) ->
  Forall (fun r => Jobs.status r <> "new") (jobs d').
Proof.
  unfold draft_and_apply. intros E.
  destruct (draft_and_apply_rows_replay _ _ _ _ _ _ _ _ E) as [Hj Hnew].
  rewrite Hj. apply Forall_forall. intros r' Hr'.
  apply in_map_iff in Hr'. destruct Hr' as [r [<- Hr]].
  destruct (Jobs.status r =? "new") eqn:Es.
  - apply replay_hit; [exact Hnew|].
    apply (draft_and_apply_rows_hits _ _ _ _ _ _ _ E).
    apply filter_In. now split.
  - apply replay_not_new; [exact Hnew|]. now apply String.eqb_neq.
Qed.

Lemma check_gmail_and_update_replay cfg box d :
  exists ws,
    jobs (fst (fst (check_gmail_and_update cfg box d))) =
      map (replay ws) (jobs d) /\
    applications (fst (fst (check_gmail_and_update cfg box d))) =
      applications d /\
    Forall (fun wr => w_status wr <> "new") ws.
Proof.
  destruct (check_gmail_and_update cfg box d) as [[d' ws] c] eqn:E.
  destruct (check_gmail_and_update_scan _ _ _ _ _ _ E) as [e [Hs _]].
  destruct (scan_messages_replay _ _ _ _ _ Hs) as [Hj Hnew].
  exists ws. simpl. repeat split; [exact Hj | | exact Hnew].
  clear E Hj Hnew. revert d d' ws e Hs.
  induction (fetched cfg box) as [|m rest IH]; intros d d' ws e Hs.
  - simpl in Hs. now injection Hs as <- _ _.
  - rewrite scan_messages_cons, match_rows_spec in Hs.
    destruct (haystack (msg_from m) (msg_subject m)) as [hay|].
    + cbv zeta beta iota in Hs.
      destruct (scan_messages rest _) as [[d2 ws2] e2] eqn:Es.
      injection Hs as <- _ _. exact (IH _ _ _ _ Es).
    + destruct (existsb _ _); cbv beta iota in Hs.
      * now injection Hs as <- _ _.
      * destruct (scan_messages rest d) as [[d2 ws2] e2] eqn:Es.
        injection Hs as <- _ _. exact (IH _ _ _ _ Es).
Qed.

End CycleFacts.

(** X1.  A full cycle that returns leaves no job with status "new": every
    row that was new after the upserts got a status update in stage 3, and the
    reply matcher never writes "new".  A cycle returns, with [None], when no
    endpoint is configured or every answer of the endpoint is a value that
    sqlite3 can bind (not a list, a dict or an oversized int), whatever else
    the outside answers. *)
Theorem run_full_cycle_leaves_no_new_job
    (cfg : config) (w : cycle_world) (d : db) :
  (forall d' v,
     run_full_cycle cfg w d = (d', Returns v) ->
     Forall (fun r => Jobs.status r <> "new") (jobs d')) /\
  (PyStr.truthy (LOCAL_LLM_ENDPOINT cfg) = false \/
   (forall k error, llm (per_job w k) <> LlmValue (CoverUnbindable error)) ->
   exists d', run_full_cycle cfg w d = (d', Returns PyNone)).
Proof.
  unfold run_full_cycle.
  destruct (draft_and_apply cfg (per_job w) _) as [[d2 ws2] e] eqn:E.
  split.
  - intros d' v H. destruct e as [e|]; [discriminate|].
    injection H as <- _.
    pose proof (draft_and_apply_drains _ _ _ _ _ E) as Hd2.
    destruct (check_gmail_and_update_replay cfg (mailbox w) d2)
      as [ws [Hj [_ Hnew]]].
    rewrite Hj. apply Forall_forall. intros r' Hr'.
    apply in_map_iff in Hr'. destruct Hr' as [r [<- Hr]].
    apply replay_not_new; [exact Hnew|].
    exact (proj1 (Forall_forall _ _) Hd2 r Hr).
  - intros Hok.
    pose proof (draft_and_apply_rows_returns cfg (per_job w)
                  (filter (fun r => Jobs.status r =? "new")
                          (jobs (upsert_all (jobs_found cfg w) d)))
                  0 (upsert_all (jobs_found cfg w) d) Hok) as Hret.
    unfold draft_and_apply in E. rewrite E in Hret. cbn [snd] in Hret.
    subst e. eexists. reflexivity.
Qed.

Lemma run_full_cycle_leaves_no_new_job_witness :
  exists d',
    run_full_cycle llm_cfg
      (mkcycle_world "2026-01-02" HttpRaises HttpRaises text_reply_world
                     (ImapMessages [] None)) acme_store
    = (d', Returns PyNone) /\
    jobs d' <> [] /\
    Forall (fun r => Jobs.status r <> "new") (jobs d').
Proof.
  eexists. split; [reflexivity|]. split; [discriminate|].
  exact (proj1 (run_full_cycle_leaves_no_new_job llm_cfg
                  (mkcycle_world "2026-01-02" HttpRaises HttpRaises
                                 text_reply_world (ImapMessages [] None))
                  acme_store) _ PyNone eq_refl).
Defined.

(** X2.  Stage 3 works through the rows that are "new" in table order, up
    to the first row whose cover text cannot be bound: the status updates it
    issues and the application rows it appends name exactly the job_ids of
    the rows before that one, one each and in that order; earlier application
    rows are left in place.  When the stage ends without an exception it has
    worked through all the "new" rows; when it ends with one, the row it
    stopped at is "new", the endpoint answered for it with a value that
    sqlite3 cannot bind, and the exception is the one sqlite3 raised for that
    value. *)
Theorem draft_and_apply_in_table_order
    (cfg : config) (w : nat -> job_world) (d d' : db) (ws : list write)
    (e : outcome) :
  draft_and_apply cfg w d = (d', ws, e) ->
  exists n added,
    n <= length (filter (fun r => Jobs.status r =? "new") (jobs d)) /\
    map w_job_id ws =
      map Jobs.job_id
          (firstn n (filter (fun r => Jobs.status r =? "new") (jobs d))) /\
    applications d' = (applications d ++ added)%list /\
    map Applications.job_id added =
      map Jobs.job_id
          (firstn n (filter (fun r => Jobs.status r =? "new") (jobs d))) /\
    (e = None ->
     n = length (filter (fun r => Jobs.status r =? "new") (jobs d))) /\
    (e <> None ->
     exists r error,
       nth_error (filter (fun r => Jobs.status r =? "new") (jobs d)) n
         = Some r /\
       local_llm_generate cfg (llm (w n))
         (cover_prompt cfg (Jobs.title r) (Jobs.company r))
       = CoverUnbindable error /\
       e = Some error).
Proof.
  unfold draft_and_apply. intros E.
  destruct (draft_and_apply_rows_order _ _ _ _ _ _ _ _ E)
    as [n [added [Hn [He [Hab [Hw [Ha Hids]]]]]]].
  exists n, added. repeat split; auto.
  intros Hne. destruct (Hab Hne) as [r [error [Hr [Hb ->]]]].
  exists r, error. split; [exact Hr|]. split; [|reflexivity].
  cbn [Nat.add] in Hb. unfold job_cover in Hb.
  destruct (local_llm_generate cfg (llm (w n)) _); try discriminate.
  now injection Hb as ->.
Qed.

Lemma draft_and_apply_in_table_order_witness :
  exists n added,
    n <= 1 /\
    map w_job_id (@nil write) = map Jobs.job_id (firstn n [acme_row]) /\
    applications acme_store = (applications acme_store ++ added)%list /\
    map Applications.job_id added = map Jobs.job_id (firstn n [acme_row]) /\
    (Some list_not_bound = None -> n = 1) /\
    (Some list_not_bound <> None ->
     exists r error,
       nth_error [acme_row] n = Some r /\
       local_llm_generate llm_cfg (llm (list_reply_world n))
         (cover_prompt llm_cfg (Jobs.title r) (Jobs.company r))
       = CoverUnbindable error /\
       Some list_not_bound = Some error).
Proof.
  exact (draft_and_apply_in_table_order llm_cfg list_reply_world acme_store
           acme_store [] (Some list_not_bound) eq_refl).
Defined.

(** *** Invariants of the store under the core operations *)

Section Invariants.

Lemma run_ops_invariant (P : db -> Prop) :
  (forall o d, P d -> P (run_op o d)) ->
  forall ops d, P d -> P (run_ops ops d).
Proof.
  intros Hstep ops. induction ops as [|o ops IH]; intros d Hd; [exact Hd|].
  apply IH. now apply Hstep.
Qed.

Lemma upsert_all_applications found :
  forall d, applications (upsert_all found d) = applications d.
Proof.
  induction found as [|job found IH]; intros d; [reflexivity|].
  simpl. rewrite IH. unfold add_or_update_job. now destruct (job_exists _ d).
Qed.

Lemma replay_applied_at ws r :
  Jobs.applied_at (replay ws r) = Jobs.applied_at r.
Proof.
  revert r. induction ws as [|w ws IH]; intros r; [reflexivity|].
  change (Jobs.applied_at (replay ws (apply_write w r)) = Jobs.applied_at r).
  rewrite IH. unfold apply_write. now destruct (_ =? _).
Qed.

Lemma add_or_update_job_applied_at job d :
  Forall (fun r => Jobs.applied_at r = None) (jobs d) ->
  Forall (fun r => Jobs.applied_at r = None) (jobs (add_or_update_job job d)).
Proof.
  intros H. unfold add_or_update_job.
  destruct (job_exists _ d); simpl.
  - apply Forall_map. eapply Forall_impl; [|exact H].
    intros r Hr. now destruct (_ =? _).
  - apply Forall_app. split; [exact H|]. now constructor.
Qed.

Lemma upsert_all_applied_at found :
  forall d,
    Forall (fun r => Jobs.applied_at r = None) (jobs d) ->
    Forall (fun r => Jobs.applied_at r = None) (jobs (upsert_all found d)).
Proof.
  induction found as [|job found IH]; intros d H; [exact H|].
  apply IH. now apply add_or_update_job_applied_at.
Qed.

Lemma map_replay_applied_at ws rows :
  Forall (fun r => Jobs.applied_at r = None) rows ->
  Forall (fun r => Jobs.applied_at r = None) (map (replay ws) rows).
Proof.
  intros H. apply Forall_map. eapply Forall_impl; [|exact H].
  intros r Hr. now rewrite replay_applied_at.
Qed.

Lemma draft_and_apply_jobs cfg w d :
  exists ws,
    jobs (fst (fst (draft_and_apply cfg w d))) = map (replay ws) (jobs d) /\
    Forall (fun wr => w_status wr <> "new") ws.
Proof.
  unfold draft_and_apply.
  destruct (draft_and_apply_rows cfg w 0 _ d) as [[d' ws] e] eqn:E.
  exists ws. exact (draft_and_apply_rows_replay _ _ _ _ _ _ _ _ E).
Qed.

Lemma in_prefix {A} (x : A) n (l : list A) : In x (firstn n l) -> In x l.
Proof.
  revert l. induction n as [|n IH]; intros l H; [contradiction|].
  destruct l as [|a l]; [contradiction|].
  destruct H as [->|H]; [now left | right; now apply IH].
Qed.

(** However stage 3 ends, it only appends application rows, each with the
    job_id of a job row. *)
Lemma draft_and_apply_applications cfg w d :
  exists added,
    applications (fst (fst (draft_and_apply cfg w d))) =
      (applications d ++ added)%list /\
    forall a, In a added -> job_exists (Applications.job_id a) d = true.
Proof.
  unfold draft_and_apply.
  destruct (draft_and_apply_rows cfg w 0 _ d) as [[d' ws] e] eqn:E.
  destruct (draft_and_apply_rows_order _ _ _ _ _ _ _ _ E)
    as [n [added [_ [_ [_ [_ [Ha Hids]]]]]]].
  exists added. split; [exact Ha|].
  intros a Hin. apply job_exists_iff.
  apply (in_map Applications.job_id) in Hin. rewrite Hids in Hin.
  apply in_map_iff in Hin. destruct Hin as [r [<- Hr]].
  apply in_map. apply in_prefix in Hr. apply filter_In in Hr. tauto.
Qed.

Lemma run_op_applied_at o d :
  Forall (fun r => Jobs.applied_at r = None) (jobs d) ->
  Forall (fun r => Jobs.applied_at r = None) (jobs (run_op o d)).
Proof.
  intros H. destruct o as [job|cfg w|cfg box]; simpl.
  - now apply add_or_update_job_applied_at.
  - assert (H2 : Forall (fun r => Jobs.applied_at r = None)
                   (jobs (fst (fst (draft_and_apply cfg (per_job w)
                                      (upsert_all (jobs_found cfg w) d)))))).
    { destruct (draft_and_apply_jobs cfg (per_job w)
                  (upsert_all (jobs_found cfg w) d)) as [ws' [Hj' _]].
      rewrite Hj'. apply map_replay_applied_at.
      now apply upsert_all_applied_at. }
    destruct (run_full_cycle_cases cfg w d) as [-> | ->]; [exact H2|].
    destruct (check_gmail_and_update_replay cfg (mailbox w)
                (fst (fst (draft_and_apply cfg (per_job w)
                             (upsert_all (jobs_found cfg w) d)))))
      as [ws [Hj _]].
    rewrite Hj. now apply map_replay_applied_at.
  - destruct (check_gmail_and_update_replay cfg box d) as [ws [Hj _]].
    rewrite Hj. now apply map_replay_applied_at.
Qed.

Lemma run_op_applications o d :
  exists added, applications (run_op o d) = (applications d ++ added)%list.
Proof.
  destruct o as [job|cfg w|cfg box]; simpl.
  - exists []. rewrite app_nil_r. unfold add_or_update_job.
    now destruct (job_exists _ d).
  - destruct (draft_and_apply_applications cfg (per_job w)
                (upsert_all (jobs_found cfg w) d)) as [added [Hadd _]].
    rewrite upsert_all_applications in Hadd.
    exists added.
    destruct (run_full_cycle_cases cfg w d) as [-> | ->]; [exact Hadd|].
    destruct (check_gmail_and_update_replay cfg (mailbox w)
                (fst (fst (draft_and_apply cfg (per_job w)
                             (upsert_all (jobs_found cfg w) d)))))
      as [ws [_ [Ha _]]].
    now rewrite Ha.
  - destruct (check_gmail_and_update_replay cfg box d) as [ws [_ [Ha _]]].
    exists []. now rewrite Ha, app_nil_r.
Qed.

End Invariants.

(** X3.  The applications table is append-only: after any sequence of
    upserts, full cycles and reconcile calls the rows that were there are
    still there, unchanged and in place, followed by the rows added since.
    An upsert and a reconcile call add none. *)
Theorem applications_are_append_only :
  (forall ops d,
     exists added, applications (run_ops ops d) = (applications d ++ added)%list) /\
  (forall job d, applications (add_or_update_job job d) = applications d) /\
  (forall cfg box d,
     applications (fst (fst (check_gmail_and_update cfg box d))) = applications d).
Proof.
  repeat split.
  - intros ops. induction ops as [|o ops IH]; intros d.
    + exists []. now rewrite app_nil_r.
    + destruct (run_op_applications o d) as [a1 H1].
      destruct (IH (run_op o d)) as [a2 H2].
      exists (a1 ++ a2)%list. simpl. change (fold_left _ ops (run_op o d))
        with (run_ops ops (run_op o d)).
      now rewrite H2, H1, app_assoc.
  - intros job d. unfold add_or_update_job. now destruct (job_exists _ d).
  - intros cfg box d.
    destruct (check_gmail_and_update_replay cfg box d) as [ws [_ [Ha _]]].
    exact Ha.
Qed.

(** X4.  No operation ever writes the column [applied_at]: in every store
    reached from the empty one it is NULL in every row, also for jobs whose
    status is "applied". *)
Theorem applied_at_is_never_written (ops : list op) :
  Forall (fun r => Jobs.applied_at r = None) (jobs (run_ops ops init_db)).
Proof.
  apply (run_ops_invariant
           (fun d => Forall (fun r => Jobs.applied_at r = None) (jobs d))).
  - exact run_op_applied_at.
  - constructor.
Qed.

(** *** A second reconcile pass over the same inbox *)

Section ReconcileTwice.

Lemma scan_messages_replied msgs :
  forall d d' ws e,
    scan_messages msgs d = (d', ws, e) ->
    Forall (fun wr => w_status wr = "replied") ws.
Proof.
  induction msgs as [|m rest IH]; intros d d' ws e Hscan.
  - simpl in Hscan. injection Hscan as _ <- _. constructor.
  - rewrite scan_messages_cons, match_rows_spec in Hscan.
    destruct (haystack (msg_from m) (msg_subject m)) as [hay|].
    + cbv zeta beta iota in Hscan.
      destruct (scan_messages rest _) as [[d2 ws2] e2] eqn:Es.
      injection Hscan as _ <- _.
      apply Forall_app. split; [|exact (IH _ _ _ _ Es)].
      apply Forall_forall. intros wr Hwr. apply in_map_iff in Hwr.
      now destruct Hwr as [x [<- _]].
    + destruct (existsb _ _); cbv beta iota in Hscan.
      * injection Hscan as _ <- _. constructor.
      * destruct (scan_messages rest d) as [[d2 ws2] e2] eqn:Es.
        injection Hscan as _ <- _. exact (IH _ _ _ _ Es).
Qed.

(** A row that is still open after a run of "replied" updates was named by
    none of them. *)
Lemma replay_open ws r :
  Forall (fun wr => w_status wr = "replied") ws ->
  open_for_matching (replay ws r) = true ->
  replay ws r = r /\ forall wr, In wr ws -> w_job_id wr <> Jobs.job_id r.
Proof.
  intros Hws. revert r. induction Hws as [|w0 ws Hw0 Hws IH]; intros r Hopen.
  - split; [reflexivity | intros wr []].
  - change (replay (w0 :: ws) r) with (replay ws (apply_write w0 r)) in *.
    destruct (IH _ Hopen) as [Hsame Hnone].
    rewrite Hsame in Hopen |- *. rewrite apply_write_job_id in Hnone.
    unfold apply_write in *.
    destruct (Jobs.job_id r =? w_job_id w0) eqn:E.
    + rewrite Hw0 in Hopen. discriminate.
    + split; [reflexivity|]. intros wr [<-|Hin].
      * apply String.eqb_neq in E. congruence.
      * now apply Hnone.
Qed.

Lemma quiet_scan msgs :
  forall d, (forall m, In m msgs -> quiet m (jobs d)) ->
            scan_messages msgs d = (d, [], None).
Proof.
  induction msgs as [|m rest IH]; intros d Hq; [reflexivity|].
  rewrite scan_messages_cons, match_rows_spec.
  pose proof (Hq m (or_introl eq_refl)) as Hm.
  assert (Hrest : scan_messages rest d = (d, [], None)).
  { apply IH. intros m' Hm'. apply Hq. now right. }
  destruct (haystack (msg_from m) (msg_subject m)) as [hay|] eqn:Eh.
  - cbv zeta. rewrite filter_twice, filter_none.
    + simpl. rewrite map_replay_nil.
      replace (mkdb (jobs d) (applications d)) with d by now destruct d.
      now rewrite Hrest.
    + intros r Hr. destruct (open_for_matching r) eqn:Eo; [|reflexivity].
      destruct (PyStr.truthy (Jobs.company r)) eqn:Et; [|reflexivity].
      destruct (Hm r Hr Eo Et) as [hay' [Hh Hc]].
      rewrite Eh in Hh. injection Hh as <-. simpl. exact Hc.
  - replace (existsb _ _) with false; [now rewrite Hrest|].
    symmetry. apply not_true_is_false. intros Hex.
    apply existsb_exists in Hex. destruct Hex as [r [Hr Et]].
    apply filter_In in Hr. destruct Hr as [Hr Eo].
    destruct (Hm r Hr Eo Et) as [hay' [Hh _]]. congruence.
Qed.

Lemma scan_settles msgs :
  forall d d' ws,
    scan_messages msgs d = (d', ws, None) ->
    forall m, In m msgs -> quiet m (jobs d').
Proof.
  induction msgs as [|m rest IH]; intros d d' ws Hscan m' Hm'; [contradiction|].
  pose proof (scan_messages_replied _ _ _ _ _ Hscan) as Hrep.
  destruct (scan_messages_replay _ _ _ _ _ Hscan) as [Hj _].
  rewrite scan_messages_cons, match_rows_spec in Hscan.
  destruct (haystack (msg_from m) (msg_subject m)) as [hay|] eqn:Eh.
  - cbv zeta beta iota in Hscan.
    destruct (scan_messages rest _) as [[d2 ws2] e2] eqn:Es.
    injection Hscan as <- <- ->.
    destruct Hm' as [<-|Hm']; [|exact (IH _ _ _ Es _ Hm')].
    intros r' Hr' Hopen Ht. exists hay. split; [exact Eh|].
    rewrite Hj in Hr'. apply in_map_iff in Hr'. destruct Hr' as [r [<- Hr]].
    destruct (replay_open _ _ Hrep Hopen) as [Hsame Hnone].
    rewrite Hsame in *.
    destruct (PyStr.contains (PyStr.lower (Jobs.company r)) hay) eqn:Ec;
      [|reflexivity].
    exfalso.
    apply (Hnone (mkwrite (Jobs.job_id r) "replied"
                    (reply_notes (msg_from m) (msg_subject m))));
      [|reflexivity].
    apply in_or_app. left.
    apply (in_map (fun x => mkwrite (Jobs.job_id x) "replied"
                     (reply_notes (msg_from m) (msg_subject m)))).
    apply filter_In. split.
    + apply filter_In. now split.
    + now rewrite Ht, Ec.
  - destruct (existsb _ _) eqn:Ex; cbv beta iota in Hscan; [discriminate|].
    destruct (scan_messages rest d) as [[d2 ws2] e2] eqn:Es.
    injection Hscan as <- <- ->.
    destruct Hm' as [<-|Hm']; [|exact (IH _ _ _ Es _ Hm')].
    intros r' Hr' Hopen Ht. exfalso.
    rewrite Hj in Hr'. apply in_map_iff in Hr'. destruct Hr' as [r [<- Hr]].
    destruct (replay_open _ _ Hrep Hopen) as [Hsame _].
    rewrite Hsame in *.
    assert (Hex : existsb (fun r => PyStr.truthy (Jobs.company r))
                    (filter open_for_matching (jobs d)) = true).
    { apply existsb_exists. exists r. split; [|exact Ht].
      apply filter_In. now split. }
    congruence.
Qed.

End ReconcileTwice.

(** X5.  A reconcile call that returns has settled the inbox: the same call
    again, on the store it left and over the same messages, reads them all,
    issues no status update, leaves the store as it is and returns the same
    value. *)
Theorem check_gmail_and_update_twice
    (cfg : config) (box : inbox) (d d' : db) (ws : list write) (v : pyval) :
  check_gmail_and_update cfg box d = (d', ws, Returns v) ->
  check_gmail_and_update cfg box d' = (d', [], Returns v).
Proof.
  unfold check_gmail_and_update.
  destruct (negb _); [intros H; now injection H as <- _ <-|].
  destruct box as [e|[|m msgs] logout]; [discriminate | |].
  - intros H. now injection H as <- _ <-.
  - destruct (scan_messages (m :: msgs) d) as [[d1 ws1] [e|]] eqn:Es;
      [discriminate|].
    intros H. injection H as <- _ Hv.
    rewrite (quiet_scan (m :: msgs) d1 (scan_settles _ _ _ _ Es)).
    now rewrite Hv.
Qed.

Lemma check_gmail_and_update_twice_witness :
  exists d' ws,
    check_gmail_and_update manual_cfg
      (ImapMessages [interview_mail; newsletter_mail] None) acme_store
      = (d', ws, Returns PyNone) /\
    ws <> [] /\
    check_gmail_and_update manual_cfg
      (ImapMessages [interview_mail; newsletter_mail] None) d'
      = (d', [], Returns PyNone).
Proof.
  eexists. eexists. split; [reflexivity|]. split; [discriminate|].
  exact (check_gmail_and_update_twice manual_cfg
           (ImapMessages [interview_mail; newsletter_mail] None)
           acme_store _ _ PyNone eq_refl).
Defined.

(** *** Which message marks a job *)

Section FirstMatch.

Lemma scan_first_match pre :
  forall m post d d' ws r,
    unique_job_ids d ->
    In r (jobs d) ->
    open_for_matching r = true ->
    (forall m', In m' pre -> row_matches m' r = false) ->
    row_matches m r = true ->
    scan_messages (pre ++ m :: post) d = (d', ws, None) ->
    writes_to (Jobs.job_id r) ws =
    [mkwrite (Jobs.job_id r) "replied"
             (reply_notes (msg_from m) (msg_subject m))].
Proof.
  induction pre as [|m0 pre IH];
    intros m post d d' ws r Hu Hr Hopen Hpre Hm Hscan.
  - simpl app in Hscan.
    rewrite scan_messages_cons, match_rows_spec in Hscan.
    unfold row_matches in Hm. apply andb_true_iff in Hm.
    destruct Hm as [Ht Hc].
    destruct (haystack (msg_from m) (msg_subject m)) as [hay|] eqn:Eh;
      [|discriminate].
    cbv zeta beta iota in Hscan.
    destruct (scan_messages post _) as [[d2 ws2] e2] eqn:Es.
    injection Hscan as <- <- ->.
    set (q := fun x : Jobs.row =>
                PyStr.truthy (Jobs.company x) &&
                PyStr.contains (PyStr.lower (Jobs.company x)) hay) in *.
    set (mk := fun x : Jobs.row =>
                 mkwrite (Jobs.job_id x) "replied"
                         (reply_notes (msg_from m) (msg_subject m))) in *.
    set (ws1 := map mk (filter q (filter open_for_matching (jobs d)))) in *.
    assert (Hw1 : writes_to (Jobs.job_id r) ws1 = [mk r]).
    { assert (H : writes_to (Jobs.job_id r) ws1 =
                  if open_for_matching r && q r then [mk r] else []).
      { unfold ws1. rewrite filter_twice.
        apply writes_to_selected; [reflexivity | exact Hu | exact Hr]. }
      rewrite H, Hopen. unfold q. now rewrite Ht, Hc. }
    rewrite writes_to_app, Hw1.
    assert (Hu1 : unique_job_ids
                    (mkdb (map (replay ws1) (jobs d)) (applications d))).
    { unfold unique_job_ids. simpl. now rewrite map_job_id_replay. }
    destruct (scan_messages_spec _ _ _ _ _ Hu1 Es) as [_ [_ Hrows]].
    assert (Hr1 : In (replay ws1 r)
                     (jobs (mkdb (map (replay ws1) (jobs d)) (applications d)))).
    { simpl. now apply in_map. }
    destruct (Hrows _ Hr1) as [Hone _]. rewrite replay_job_id in Hone.
    destruct Hone as [H|[m' [_ [Ho _]]]]; [now rewrite H|].
    rewrite replay_writes_to, Hw1 in Ho. simpl in Ho.
    unfold apply_write in Ho. simpl in Ho.
    rewrite String.eqb_refl in Ho. discriminate.
  - simpl app in Hscan.
    rewrite scan_messages_cons, match_rows_spec in Hscan.
    pose proof (Hpre m0 (or_introl eq_refl)) as Hm0.
    assert (Hpre' : forall m', In m' pre -> row_matches m' r = false).
    { intros m' Hm'. apply Hpre. now right. }
    unfold row_matches in Hm0.
    destruct (haystack (msg_from m0) (msg_subject m0)) as [hay|] eqn:Eh.
    + cbv zeta beta iota in Hscan.
      destruct (scan_messages (pre ++ m :: post) _) as [[d2 ws2] e2] eqn:Es.
      injection Hscan as <- <- ->.
      set (q := fun x : Jobs.row =>
                  PyStr.truthy (Jobs.company x) &&
                  PyStr.contains (PyStr.lower (Jobs.company x)) hay) in *.
      set (mk := fun x : Jobs.row =>
                   mkwrite (Jobs.job_id x) "replied"
                           (reply_notes (msg_from m0) (msg_subject m0))) in *.
      set (ws1 := map mk (filter q (filter open_for_matching (jobs d)))) in *.
      assert (Hw1 : writes_to (Jobs.job_id r) ws1 = []).
      { assert (H : writes_to (Jobs.job_id r) ws1 =
                    if open_for_matching r && q r then [mk r] else []).
        { unfold ws1. rewrite filter_twice.
          apply writes_to_selected; [reflexivity | exact Hu | exact Hr]. }
        rewrite H, Hopen. unfold q. now rewrite Hm0. }
      rewrite writes_to_app, Hw1. simpl.
      assert (Hu1 : unique_job_ids
                      (mkdb (map (replay ws1) (jobs d)) (applications d))).
      { unfold unique_job_ids. simpl. now rewrite map_job_id_replay. }
      assert (Hr1 : In r (map (replay ws1) (jobs d))).
      { replace r with (replay ws1 r) at 1; [now apply in_map|].
        now rewrite replay_writes_to, Hw1. }
      exact (IH m post _ _ _ r Hu1 Hr1 Hopen Hpre' Hm Es).
    + destruct (existsb _ _); cbv beta iota in Hscan; [discriminate|].
      destruct (scan_messages (pre ++ m :: post) d) as [[d2 ws2] e2] eqn:Es.
      injection Hscan as <- <- ->. simpl.
      exact (IH m post d _ _ r Hu Hr Hopen Hpre' Hm Es).
Qed.

End FirstMatch.

(** X6.  The first match wins.  On a store with unique job_ids, when a
    reconcile call returns, a job that was open for matching is marked by the
    first fetched message that passes the test for it: the call issues one
    update for the job, and the row ends with status "replied" and the notes
    of that message, even when later messages match too. *)
Theorem first_matching_message_marks_the_job
    (cfg : config) (box : inbox) (d d' : db) (ws : list write) (v : pyval)
    (pre post : list message) (m : message) (i : nat) (r : Jobs.row) :
  unique_job_ids d ->
  check_gmail_and_update cfg box d = (d', ws, Returns v) ->
  fetched cfg box = (pre ++ m :: post)%list ->
  nth_error (jobs d) i = Some r ->
  open_for_matching r = true ->
  (forall m', In m' pre -> row_matches m' r = false) ->
  row_matches m r = true ->
  writes_to (Jobs.job_id r) ws =
    [mkwrite (Jobs.job_id r) "replied"
             (reply_notes (msg_from m) (msg_subject m))] /\
  nth_error (jobs d') i =
    Some (restatus_row "replied"
            (reply_notes (msg_from m) (msg_subject m)) r).
Proof.
  intros Hu Hcall Hf Hi Hopen Hpre Hm.
  destruct (check_gmail_and_update_scan _ _ _ _ _ _ Hcall) as [e [Hs Hret]].
  rewrite (Hret v eq_refl), Hf in Hs.
  pose proof (scan_first_match pre m post d d' ws r Hu
                (nth_error_In _ _ Hi) Hopen Hpre Hm Hs) as Hw.
  split; [exact Hw|].
  destruct (scan_messages_replay _ _ _ _ _ Hs) as [Hj _].
  rewrite Hj, (nth_error_map_replay ws _ _ _ Hi).
  rewrite replay_writes_to, Hw. simpl. unfold apply_write. simpl.
  now rewrite String.eqb_refl.
Qed.

Lemma first_matching_message_marks_the_job_witness :
  exists d' ws,
    check_gmail_and_update manual_cfg
      (ImapMessages [newsletter_mail; interview_mail; interview_mail] None)
      acme_store = (d', ws, Returns PyNone) /\
    writes_to (Jobs.job_id acme_row) ws =
      [mkwrite (Jobs.job_id acme_row) "replied"
               (reply_notes (msg_from interview_mail)
                            (msg_subject interview_mail))] /\
    nth_error (jobs d') 0 =
      Some (restatus_row "replied"
              (reply_notes (msg_from interview_mail)
                           (msg_subject interview_mail)) acme_row).
Proof.
  eexists. eexists. split; [reflexivity|].
  apply (first_matching_message_marks_the_job manual_cfg
           (ImapMessages [newsletter_mail; interview_mail; interview_mail] None)
           acme_store _ _ PyNone [newsletter_mail] [interview_mail]
           interview_mail 0 acme_row).
  - unique_by_computation.
  - reflexivity.
  - reflexivity.
  - reflexivity.
  - reflexivity.
  - intros m' [<-|[]]. reflexivity.
  - reflexivity.
Defined.

(** X7.  A fetched message with a header block that holds no Subject line
    (its Subject value is still the bytes of line 297) makes the call raise
    TypeError as soon as it is read while some job is open for matching and
    has a company: nothing is written for this message, and the messages
    after it are not read. *)
Theorem subjectless_message_raises
    (cfg : config) (m : message) (rest : list message) (logout : outcome)
    (d : db) (b : string) (r : Jobs.row) :
  truthy_opt (GMAIL_EMAIL cfg) = true ->
  truthy_opt (GMAIL_PASSWORD cfg) = true ->
  msg_subject m = Bytes b ->
  In r (jobs d) ->
  open_for_matching r = true ->
  Jobs.company r <> "" ->
  check_gmail_and_update cfg (ImapMessages (m :: rest) logout) d =
    (d, [], Raises "TypeError").
Proof.
  intros He Hp Hs Hr Hopen Hc. unfold check_gmail_and_update.
  rewrite He, Hp. simpl negb. cbv iota.
  rewrite scan_messages_cons, match_rows_spec.
  unfold haystack. rewrite Hs. simpl str_add. cbv iota.
  replace (existsb _ _) with true; [reflexivity|].
  symmetry. apply existsb_exists. exists r. split.
  - apply filter_In. now split.
  - destruct (Jobs.company r); [congruence | reflexivity].
Qed.

Lemma subjectless_message_raises_witness :
  msg_subject mail_without_subject = Bytes "" /\
  check_gmail_and_update manual_cfg
    (ImapMessages [mail_without_subject; interview_mail] None) acme_store =
    (acme_store, [], Raises "TypeError").
Proof.
  split; [reflexivity|].
  apply (subjectless_message_raises manual_cfg mail_without_subject
           [interview_mail] None acme_store "" acme_row); try reflexivity.
  - now left.
  - discriminate.
Defined.

(** *** The apply executor, outcome by outcome *)

(** X8.  [apply_to_job] reports "applied" exactly when the job has a URL and
    the browser started, loaded the page, found the file input, took the
    resume and quit, whether or not a submit button was found or clicked.  It
    reports "manual_required" exactly when the browser started and loaded the
    page, one of the later steps raised, and the browser could then be quit.
    The detail is then "no file input or error: " followed by the text of the
    exception of the first step that raised, in the order: finding the file
    input, handing it the resume path, quitting the browser; the steps after
    it are not run.  When the browser cannot be quit in the handler either,
    the result is "selenium_error" and the detail is the text of that last
    exception alone. *)
Theorem apply_to_job_outcomes (job : ApplyJob.t) (b : browser) :
  (ApplyResult.result (apply_to_job job b) = "applied" <->
   truthy_opt (ApplyJob.url job) = true /\ chrome b = None /\ get b = None /\
   find_file_input b = None /\ send_keys b = None /\
   quit_after_click b = None) /\
  (ApplyResult.result (apply_to_job job b) = "manual_required" <->
   truthy_opt (ApplyJob.url job) = true /\ chrome b = None /\ get b = None /\
   (find_file_input b <> None \/ send_keys b <> None \/
    quit_after_click b <> None) /\
   quit_in_handler b = None) /\
  (forall e : string,
     truthy_opt (ApplyJob.url job) = true -> chrome b = None -> get b = None ->
     find_file_input b = Some e \/
     (find_file_input b = None /\ send_keys b = Some e) \/
     (find_file_input b = None /\ send_keys b = None /\
      quit_after_click b = Some e) ->
     (quit_in_handler b = None ->
      apply_to_job job b =
        ApplyResult.mk "manual_required"
                       (Some ("no file input or error: " ++ e))) /\
     (forall e' : string,
        quit_in_handler b = Some e' ->
        apply_to_job job b = ApplyResult.mk "selenium_error" (Some e'))) /\
  (ApplyResult.result (apply_to_job job b) = "manual_required" ->
   exists e : string,
     (find_file_input b = Some e \/
      (find_file_input b = None /\ send_keys b = Some e) \/
      (find_file_input b = None /\ send_keys b = None /\
       quit_after_click b = Some e)) /\
     ApplyResult.detail (apply_to_job job b) =
       Some ("no file input or error: " ++ e)) /\
  apply_to_job acme_apply_job page_without_input =
    ApplyResult.mk "manual_required"
                   (Some "no file input or error: no such element") /\
  apply_to_job acme_apply_job input_refuses_path =
    ApplyResult.mk "manual_required"
      (Some "no file input or error: invalid argument: File not found") /\
  apply_to_job acme_apply_job stuck_without_input =
    ApplyResult.mk "selenium_error" (Some "invalid session id").
Proof.
  split; [|split; [|split; [|split; [|repeat split; reflexivity]]]].
  - unfold apply_to_job, manual_required.
    destruct (truthy_opt (ApplyJob.url job));
      destruct b as [[c|] [g|] [f|] [s|] [q|] [h|]]; simpl;
      (split; [discriminate || (intros _; intuition congruence)
              | intuition (discriminate || congruence)]).
  - unfold apply_to_job, manual_required.
    destruct (truthy_opt (ApplyJob.url job));
      destruct b as [[c|] [g|] [f|] [s|] [q|] [h|]]; simpl;
      (split; [discriminate || (intros _; intuition (discriminate || congruence))
              | intuition (discriminate || congruence)]).
  - intros e Hu Hc Hg Hstep. unfold apply_to_job, manual_required.
    rewrite Hu, Hc, Hg. cbn [negb].
    destruct Hstep as [Hf|[[Hf Hs]|[Hf [Hs Hq]]]];
      rewrite ?Hf, ?Hs, ?Hq; split.
    all: try (intros Hh; now rewrite Hh).
    all: intros e' Hh; now rewrite Hh.
  - unfold apply_to_job, manual_required.
    destruct (truthy_opt (ApplyJob.url job));
      destruct b as [[c|] [g|] [f|] [s|] [q|] [h|]]; simpl;
      try discriminate; intros _; eexists; (split; [|reflexivity]); tauto.
Qed.

(** *** How the store operations compose *)

(** X9.  Of two status updates of the same job the later one stands; status
    updates of different jobs commute; and for a job_id already in the store,
    re-ingesting its listing and updating any job's status commute, so a
    scrape never undoes a status and a status update never undoes a
    scrape. *)
Theorem store_updates_compose :
  (forall j s1 n1 s2 n2 d,
     set_job_status j s2 n2 (set_job_status j s1 n1 d) =
     set_job_status j s2 n2 d) /\
  (forall j1 s1 n1 j2 s2 n2 d,
     j1 <> j2 ->
     set_job_status j1 s1 n1 (set_job_status j2 s2 n2 d) =
     set_job_status j2 s2 n2 (set_job_status j1 s1 n1 d)) /\
  (forall job j s n d,
     job_exists (JobDict.job_id job) d = true ->
     add_or_update_job job (set_job_status j s n d) =
     set_job_status j s n (add_or_update_job job d)).
Proof.
  repeat split.
  - intros j s1 n1 s2 n2 d. unfold set_job_status. simpl. f_equal.
    rewrite map_map. apply map_ext. intros r.
    destruct (Jobs.job_id r =? j) eqn:E; simpl; now rewrite E.
  - intros j1 s1 n1 j2 s2 n2 d Hne. unfold set_job_status. simpl. f_equal.
    rewrite !map_map. apply map_ext. intros r.
    destruct (Jobs.job_id r =? j2) eqn:E2; destruct (Jobs.job_id r =? j1) eqn:E1;
      simpl; rewrite ?E1, ?E2; try reflexivity.
    apply String.eqb_eq in E1, E2. congruence.
  - intros job j s n d He.
    assert (He' : job_exists (JobDict.job_id job) (set_job_status j s n d) = true).
    { apply job_exists_iff. apply job_exists_iff in He.
      rewrite set_job_status_jobs, map_map.
      rewrite (map_ext _ Jobs.job_id); [exact He|].
      intros r. apply apply_write_job_id. }
    unfold add_or_update_job. rewrite He, He'.
    unfold set_job_status. simpl. f_equal.
    rewrite !map_map. apply map_ext. intros r.
    destruct (Jobs.job_id r =? j) eqn:E1;
      destruct (Jobs.job_id r =? JobDict.job_id job) eqn:E2;
      simpl; rewrite ?E1, ?E2; reflexivity.
Qed.

Lemma store_updates_compose_witness :
  job_exists (JobDict.job_id acme) acme_store = true /\
  add_or_update_job acme (set_job_status "Acme|SWE|https://x/1" "applied" "n" acme_store) =
  set_job_status "Acme|SWE|https://x/1" "applied" "n" (add_or_update_job acme acme_store).
Proof.
  split; [reflexivity|].
  apply (proj2 (proj2 store_updates_compose)). reflexivity.
Defined.

(** *** Ingestion *)

Section IngestionFacts.

Lemma take_length n s : String.length (PyStr.take n s) <= n.
Proof.
  revert s. induction n as [|n IH]; intros s; [simpl; lia|].
  destruct s as [|c s]; simpl; [lia|]. specialize (IH s). lia.
Qed.

Lemma job_exists_add_or_update_job jid job d :
  job_exists jid (add_or_update_job job d) = true <->
  job_exists jid d = true \/ jid = JobDict.job_id job.
Proof.
  rewrite !job_exists_iff, add_or_update_job_job_ids.
  destruct (job_exists (JobDict.job_id job) d) eqn:E.
  - split; [now left|]. intros [H| ->]; [exact H|].
    now apply job_exists_iff.
  - rewrite in_app_iff. simpl. intuition congruence.
Qed.

Lemma job_exists_upserted found :
  forall jid d,
    job_exists jid d = true \/ In jid (map JobDict.job_id found) ->
    job_exists jid (upsert_all found d) = true.
Proof.
  induction found as [|job found IH]; intros jid d H.
  - destruct H as [H|[]]. exact H.
  - simpl upsert_all. change (fold_left _ found (add_or_update_job job d))
      with (upsert_all found (add_or_update_job job d)).
    apply IH. rewrite job_exists_add_or_update_job.
    simpl in H. intuition congruence.
Qed.

Lemma upsert_all_known found :
  forall d,
    (forall j, In j found -> job_exists (JobDict.job_id j) d = true) ->
    map Jobs.status (jobs (upsert_all found d)) = map Jobs.status (jobs d).
Proof.
  induction found as [|job found IH]; intros d Hk; [reflexivity|].
  simpl upsert_all. change (fold_left _ found (add_or_update_job job d))
    with (upsert_all found (add_or_update_job job d)).
  rewrite IH.
  - unfold add_or_update_job. rewrite (Hk job (or_introl eq_refl)). simpl.
    rewrite map_map. apply map_ext. intros r. now destruct (_ =? _).
  - intros j Hj. apply job_exists_add_or_update_job. left. apply Hk. now right.
Qed.

Lemma add_or_update_job_known job d :
  job_exists (JobDict.job_id job) d = true ->
  jobs (add_or_update_job job d) =
  map (fun r => if Jobs.job_id r =? JobDict.job_id job
                then refresh_row job r else r) (jobs d).
Proof. intros He. unfold add_or_update_job. now rewrite He. Qed.

End IngestionFacts.

(** X10.  The job_id of a scraped listing is at most 200 characters long.
    Two listings with the same company, title and URL have the same job_id
    whatever their location and date, so ingesting the second adds no row: the
    rows of that job_id take its location and date and keep their status and
    notes. *)
Theorem listing_job_id_bounded_and_dedups
    (today1 today2 company loc1 loc2 : string) (title url : option string)
    (d : db) :
  String.length (JobDict.job_id (listing today1 company title loc1 url)) <= 200 /\
  JobDict.job_id (listing today2 company title loc2 url) =
    JobDict.job_id (listing today1 company title loc1 url) /\
  length (jobs (add_or_update_job (listing today2 company title loc2 url)
                  (add_or_update_job (listing today1 company title loc1 url) d)))
  = length (jobs (add_or_update_job (listing today1 company title loc1 url) d)) /\
  Forall2 (fun r r' =>
             Jobs.status r' = Jobs.status r /\ Jobs.notes r' = Jobs.notes r /\
             (Jobs.job_id r =
                JobDict.job_id (listing today1 company title loc1 url) ->
              Jobs.location r' = loc2 /\ Jobs.posted_date r' = today2) /\
             (Jobs.job_id r <>
                JobDict.job_id (listing today1 company title loc1 url) ->
              r' = r))
          (jobs (add_or_update_job (listing today1 company title loc1 url) d))
          (jobs (add_or_update_job (listing today2 company title loc2 url)
                   (add_or_update_job (listing today1 company title loc1 url) d))).
Proof.
  set (l1 := listing today1 company title loc1 url).
  set (l2 := listing today2 company title loc2 url).
  assert (Hid : JobDict.job_id l2 = JobDict.job_id l1) by reflexivity.
  assert (He : job_exists (JobDict.job_id l2) (add_or_update_job l1 d) = true).
  { rewrite Hid. apply add_or_update_job_exists. }
  split; [apply take_length|]. split; [exact Hid|].
  rewrite (add_or_update_job_known l2 _ He), Hid.
  split; [apply length_map|].
  generalize (jobs (add_or_update_job l1 d)) as rows.
  induction rows as [|r rows IH]; cbn [map]; constructor; [|exact IH].
  destruct (Jobs.job_id r =? JobDict.job_id l1) eqn:E.
  - apply String.eqb_eq in E.
    split; [reflexivity|]. split; [reflexivity|]. split.
    + intros _. split; reflexivity.
    + intros Hne. contradiction.
  - apply String.eqb_neq in E.
    split; [reflexivity|]. split; [reflexivity|]. split.
    + intros He'. contradiction.
    + reflexivity.
Qed.

(** X11.  After the upsert stage the store knows a job_id exactly when it
    knew it before or one of the ingested listings carries it: every listing
    found gets a row and no other job_id appears. *)
Theorem upsert_all_knows_what_was_found
    (found : list JobDict.t) (jid : string) (d : db) :
  job_exists jid (upsert_all found d) = true <->
  job_exists jid d = true \/ In jid (map JobDict.job_id found).
Proof.
  revert d. induction found as [|job found IH]; intros d.
  - simpl. tauto.
  - simpl upsert_all. change (fold_left _ found (add_or_update_job job d))
      with (upsert_all found (add_or_update_job job d)).
    rewrite IH, job_exists_add_or_update_job. simpl. intuition congruence.
Qed.

(** X12.  On a store in which no job is "new", a cycle whose listings all
    carry known job_ids applies to nothing: stage 3 issues no status update
    and the applications table is as before, whatever the mode and whatever
    the inbox holds; the cycle returns, whatever the endpoint would
    answer. *)
Theorem known_listings_are_not_applied_to_again
    (cfg : config) (w : cycle_world) (d : db) :
  Forall (fun r => Jobs.status r <> "new") (jobs d) ->
  (forall j, In j (jobs_found cfg w) ->
             job_exists (JobDict.job_id j) d = true) ->
  snd (fst (draft_and_apply cfg (per_job w)
              (upsert_all (jobs_found cfg w) d))) = [] /\
  applications (fst (run_full_cycle cfg w d)) = applications d /\
  snd (run_full_cycle cfg w d) = Returns PyNone.
Proof.
  intros Hnew Hknown.
  assert (Hnone : filter (fun r => Jobs.status r =? "new")
                         (jobs (upsert_all (jobs_found cfg w) d)) = []).
  { apply filter_none. intros r Hr.
    apply (in_map Jobs.status) in Hr.
    rewrite (upsert_all_known _ _ Hknown) in Hr.
    apply in_map_iff in Hr. destruct Hr as [r0 [Hst Hr0]].
    apply String.eqb_neq. rewrite <- Hst.
    exact (proj1 (Forall_forall _ _) Hnew r0 Hr0). }
  unfold run_full_cycle, draft_and_apply. rewrite Hnone.
  cbn [draft_and_apply_rows fst snd].
  split; [reflexivity|]. split; [|reflexivity].
  destruct (check_gmail_and_update_replay cfg (mailbox w)
              (upsert_all (jobs_found cfg w) d)) as [ws [_ [Ha _]]].
  now rewrite Ha, upsert_all_applications.
Qed.

Lemma known_listings_are_not_applied_to_again_witness :
  jobs_found auto_cfg scenario_cycle <> [] /\
  snd (fst (draft_and_apply auto_cfg (per_job scenario_cycle)
              (upsert_all (jobs_found auto_cfg scenario_cycle) queued_store)))
    = [] /\
  applications (fst (run_full_cycle auto_cfg scenario_cycle queued_store)) =
    applications queued_store /\
  snd (run_full_cycle auto_cfg scenario_cycle queued_store) = Returns PyNone.
Proof.
  split; [discriminate|].
  apply (known_listings_are_not_applied_to_again auto_cfg scenario_cycle
           queued_store).
  - repeat constructor. discriminate.
  - intros j [<-|[]]. reflexivity.
Defined.

(** *** Reading a header block *)

Section Headers.

Lemma splitlines_line (a rest : string) :
  single_line a = true ->
  PyStr.splitlines (a ++ CRLF ++ rest) = a :: PyStr.splitlines rest.
Proof.
  induction a as [|c a IH]; intros Ha.
  - reflexivity.
  - cbn [single_line] in Ha. apply andb_true_iff in Ha.
    destruct Ha as [Hc Ha]. apply negb_true_iff in Hc.
    cbn [append PyStr.splitlines]. rewrite Hc, (IH Ha). reflexivity.
Qed.

End Headers.

(** X13.  From a header block that holds a From line and a Subject line
    followed by the blank line, in either order and with the field names
    capitalised or in capitals, the matcher reads the From text and the
    Subject text with the surrounding white space stripped, provided neither
    text holds a line boundary. *)
Theorem parse_headers_reads_both_fields (frm subj : string) :
  single_line frm = true ->
  single_line subj = true ->
  parse_headers (mkmessage (Some (header_block frm subj))) =
    (Str (PyStr.strip subj), PyStr.strip frm) /\
  parse_headers (mkmessage (Some (header_block_subject_first frm subj))) =
    (Str (PyStr.strip subj), PyStr.strip frm).
Proof.
  intros Hf Hs. unfold parse_headers, header_block, header_block_subject_first.
  cbn [header_fields]. split.
  - change ("From: " ++ frm ++ CRLF ++ "Subject: " ++ subj ++ CRLF ++ CRLF)
      with (("From: " ++ frm) ++ CRLF ++ ("Subject: " ++ subj) ++ CRLF ++ CRLF).
    rewrite splitlines_line by exact Hf.
    rewrite splitlines_line by exact Hs.
    reflexivity.
  - change ("SUBJECT: " ++ subj ++ CRLF ++ "FROM: " ++ frm ++ CRLF ++ CRLF)
      with (("SUBJECT: " ++ subj) ++ CRLF ++ ("FROM: " ++ frm) ++ CRLF ++ CRLF).
    rewrite splitlines_line by exact Hs.
    rewrite splitlines_line by exact Hf.
    reflexivity.
Qed.

Lemma parse_headers_reads_both_fields_witness :
  parse_headers
    (mkmessage (Some (header_block "Acme HR <hr@acme.com>  " "  Interview"))) =
    (Str "Interview", "Acme HR <hr@acme.com>").
Proof.
  exact (proj1 (parse_headers_reads_both_fields
                  "Acme HR <hr@acme.com>  " "  Interview" eq_refl eq_refl)).
Defined.

(** *** The recency filter and letter case *)

Section Recency.

Lemma lower_char_idempotent c :
  PyStr.lower_char (PyStr.lower_char c) = PyStr.lower_char c.
Proof. destruct c as [[] [] [] [] [] [] [] []]; reflexivity. Qed.

Lemma lower_idempotent s : PyStr.lower (PyStr.lower s) = PyStr.lower s.
Proof.
  induction s as [|c s IH]; [reflexivity|].
  cbn [PyStr.lower]. now rewrite lower_char_idempotent, IH.
Qed.

Lemma lower_app a b : PyStr.lower (a ++ b) = PyStr.lower a ++ PyStr.lower b.
Proof.
  induction a as [|c a IH]; [reflexivity|].
  cbn [append PyStr.lower]. now rewrite IH.
Qed.

Lemma truthy_lower s : PyStr.truthy (PyStr.lower s) = PyStr.truthy s.
Proof. now destruct s. Qed.

End Recency.

(** X14.  The ingestion filter looks only at the lower-cased text, and a text
    passes as soon as one of the markers occurs in it in any letter case,
    whatever stands around it: with the marker "1 day", the texts
    "11 days ago" and "Posted 21 DAYS AGO" pass as well. *)
Theorem posted_recently_ignores_case_and_context :
  (forall posted,
     posted_recently (PyStr.lower posted) = posted_recently posted) /\
  (forall marker before after,
     In (PyStr.lower marker) recency_markers ->
     posted_recently (before ++ marker ++ after) = true) /\
  posted_recently "11 days ago" = true /\
  posted_recently "Posted 21 DAYS AGO" = true.
Proof.
  repeat split.
  - intros posted. unfold posted_recently.
    now rewrite lower_idempotent, truthy_lower.
  - intros marker before after Hin.
    rewrite posted_recently_claimed. unfold claimed_recent.
    apply existsb_exists. exists (PyStr.lower marker). split; [exact Hin|].
    apply contains_iff. exists (PyStr.lower before), (PyStr.lower after).
    now rewrite !lower_app.
Qed.

(** *** The cover text when no model answers *)

Section Cover.

Lemma take_take n m s : n <= m -> PyStr.take n (PyStr.take m s) = PyStr.take n s.
Proof.
  revert m s. induction n as [|n IH]; intros m s Hnm.
  - now destruct (PyStr.take m s).
  - destruct m as [|m]; [lia|]. destruct s as [|c s]; [reflexivity|].
    cbn [PyStr.take]. rewrite IH by lia. reflexivity.
Qed.

Lemma append_length a b :
  String.length (a ++ b) = String.length a + String.length b.
Proof.
  induction a as [|c a IH]; [reflexivity|].
  cbn [append String.length]. now rewrite IH.
Qed.

End Cover.

(** X15.  When no endpoint is configured, or the endpoint call raises,
    [local_llm_generate] returns a [str], which sqlite3 can bind: with no
    endpoint it is "Optimized cover for prompt (stub): " followed by the first
    300 characters of the prompt, and after an exception of the endpoint call
    it is "[LLM failure] Generated fallback for prompt: " followed by the
    first 200.  Its length is the length of that lead plus that of the
    prefix, at most 335, and it depends on the first 300 characters of the
    prompt only. *)
Theorem local_llm_generate_fallback
    (cfg : config) (reply : llm_reply) (prompt : string) :
  PyStr.truthy (LOCAL_LLM_ENDPOINT cfg) = false \/ reply = LlmRaises ->
  local_llm_generate cfg reply prompt =
    CoverText
      (if PyStr.truthy (LOCAL_LLM_ENDPOINT cfg)
       then "[LLM failure] Generated fallback for prompt: "
            ++ PyStr.take 200 prompt
       else "Optimized cover for prompt (stub): " ++ PyStr.take 300 prompt) /\
  (exists text,
     bind_text (local_llm_generate cfg reply prompt) = inl text /\
     String.length text =
       (if PyStr.truthy (LOCAL_LLM_ENDPOINT cfg)
        then 45 + Nat.min 200 (String.length prompt)
        else 35 + Nat.min 300 (String.length prompt)) /\
     String.length text <= 335) /\
  (forall prompt',
     PyStr.take 300 prompt' = PyStr.take 300 prompt ->
     local_llm_generate cfg reply prompt' =
     local_llm_generate cfg reply prompt).
Proof.
  intros H. unfold local_llm_generate.
  assert (Hlen : forall n s,
            String.length (PyStr.take n s) = Nat.min n (String.length s)).
  { induction n as [|n IH]; intros s; [reflexivity|].
    destruct s as [|c s]; [reflexivity|].
    cbn [PyStr.take String.length Nat.min]. now rewrite IH. }
  destruct (PyStr.truthy (LOCAL_LLM_ENDPOINT cfg)).
  - destruct H as [H| ->]; [discriminate|]. repeat split.
    + eexists. split; [reflexivity|].
      rewrite append_length, Hlen. cbn [String.length]. split; lia.
    + intros prompt' Heq. do 2 f_equal.
      rewrite <- (take_take 200 300 prompt'), <- (take_take 200 300 prompt)
        by lia.
      now rewrite Heq.
  - repeat split.
    + eexists. split; [reflexivity|].
      rewrite append_length, Hlen. cbn [String.length]. split; lia.
    + intros prompt' Heq. now rewrite Heq.
Qed.

Lemma local_llm_generate_fallback_witness :
  local_llm_generate llm_cfg LlmRaises (cover_prompt llm_cfg "SWE" "Acme") =
    CoverText ("[LLM failure] Generated fallback for prompt: "
               ++ PyStr.take 200 (cover_prompt llm_cfg "SWE" "Acme")) /\
  local_llm_generate manual_cfg (LlmValue (CoverUnbindable list_not_bound))
    (cover_prompt manual_cfg "SWE" "Acme") =
    CoverText ("Optimized cover for prompt (stub): "
               ++ PyStr.take 300 (cover_prompt manual_cfg "SWE" "Acme")).
Proof.
  split.
  - exact (proj1 (local_llm_generate_fallback llm_cfg LlmRaises
                    (cover_prompt llm_cfg "SWE" "Acme")
                    (or_intror eq_refl))).
  - exact (proj1 (local_llm_generate_fallback manual_cfg
                    (LlmValue (CoverUnbindable list_not_bound))
                    (cover_prompt manual_cfg "SWE" "Acme")
                    (or_introl eq_refl))).
Defined.

(** *** What reachable stores look like *)

Section Reachable.

Lemma replay_same_but_status ws r : same_but_status r (replay ws r).
Proof.
  revert r. induction ws as [|w ws IH]; intros r.
  - repeat split.
  - change (same_but_status r (replay ws (apply_write w r))).
    specialize (IH (apply_write w r)). unfold same_but_status in *.
    unfold apply_write in *. destruct (Jobs.job_id r =? w_job_id w);
      simpl in IH; intuition congruence.
Qed.

Lemma map_replay_same_but_status ws rows :
  Forall2 same_but_status rows (map (replay ws) rows).
Proof.
  induction rows as [|r rows IH]; simpl; constructor;
    [apply replay_same_but_status | exact IH].
Qed.

Lemma replay_status ws r (P : string -> Prop) :
  Forall (fun wr => P (w_status wr)) ws ->
  P (Jobs.status r) -> P (Jobs.status (replay ws r)).
Proof.
  intros Hws. revert r. induction Hws as [|w ws Hw _ IH]; intros r Hr.
  - exact Hr.
  - change (P (Jobs.status (replay ws (apply_write w r)))).
    apply IH. unfold apply_write. now destruct (_ =? _).
Qed.

Lemma upsert_all_statuses found :
  forall d,
    Forall (fun j => JobDict.status j = Some "new") found ->
    Forall (fun r => In (Jobs.status r) written_statuses) (jobs d) ->
    Forall (fun r => In (Jobs.status r) written_statuses)
           (jobs (upsert_all found d)).
Proof.
  induction found as [|job found IH]; intros d Hf Hd; [exact Hd|].
  inversion Hf as [|? ? Hjob Hf']; subst.
  apply IH; [exact Hf'|].
  unfold add_or_update_job. destruct (job_exists _ d); simpl.
  - apply Forall_map. eapply Forall_impl; [|exact Hd].
    intros r Hr. now destruct (_ =? _).
  - apply Forall_app. split; [exact Hd|]. constructor; [|constructor].
    simpl. rewrite Hjob. simpl. tauto.
Qed.

Lemma jobs_found_new cfg w :
  Forall (fun j => JobDict.status j = Some "new") (jobs_found cfg w).
Proof.
  unfold jobs_found. apply Forall_app. split.
  - unfold search_indeed. destruct (indeed w) as [|code cards]; [constructor|].
    destruct (negb _); [constructor|].
    apply Forall_map. apply Forall_forall. reflexivity.
  - unfold search_naukri. destruct (naukri w) as [|code cards]; [constructor|].
    apply Forall_map. apply Forall_forall. reflexivity.
Qed.

Lemma check_gmail_and_update_statuses cfg box d :
  Forall (fun r => In (Jobs.status r) written_statuses) (jobs d) ->
  Forall (fun r => In (Jobs.status r) written_statuses)
         (jobs (fst (fst (check_gmail_and_update cfg box d)))).
Proof.
  intros Hd.
  destruct (check_gmail_and_update cfg box d) as [[d' ws] c] eqn:E.
  destruct (check_gmail_and_update_scan _ _ _ _ _ _ E) as [e [Hs _]].
  destruct (scan_messages_replay _ _ _ _ _ Hs) as [Hj _].
  pose proof (scan_messages_replied _ _ _ _ _ Hs) as Hrep.
  simpl. rewrite Hj. apply Forall_map. eapply Forall_impl; [|exact Hd].
  intros r Hr. apply replay_status; [|exact Hr].
  eapply Forall_impl; [|exact Hrep].
  intros wr Hwr. rewrite Hwr. simpl. tauto.
Qed.

Lemma draft_and_apply_statuses cfg w d :
  Forall (fun r => In (Jobs.status r) written_statuses) (jobs d) ->
  Forall (fun r => In (Jobs.status r) written_statuses)
         (jobs (fst (fst (draft_and_apply cfg w d)))).
Proof.
  intros Hd. unfold draft_and_apply.
  destruct (draft_and_apply_rows cfg w 0 _ d) as [[d' ws] e] eqn:E.
  destruct (draft_and_apply_rows_replay _ _ _ _ _ _ _ _ E) as [Hj _].
  pose proof (draft_and_apply_rows_statuses _ _ _ _ _ _ _ _ E) as Hws.
  cbn [fst]. rewrite Hj. apply Forall_map. eapply Forall_impl; [|exact Hd].
  intros r Hr. apply replay_status; [|exact Hr].
  eapply Forall_impl; [|exact Hws].
  intros wr Hwr. unfold written_statuses. simpl in *. tauto.
Qed.

Lemma run_full_cycle_statuses cfg w d :
  Forall (fun r => In (Jobs.status r) written_statuses) (jobs d) ->
  Forall (fun r => In (Jobs.status r) written_statuses)
         (jobs (fst (run_full_cycle cfg w d))).
Proof.
  intros Hd.
  pose proof (upsert_all_statuses _ d (jobs_found_new cfg w) Hd) as H1.
  pose proof (draft_and_apply_statuses cfg (per_job w) _ H1) as H2.
  destruct (run_full_cycle_cases cfg w d) as [-> | ->]; [exact H2|].
  now apply check_gmail_and_update_statuses.
Qed.

Lemma run_op_job_ids o d jid :
  job_exists jid d = true -> job_exists jid (run_op o d) = true.
Proof.
  rewrite !job_exists_iff. intros H.
  apply in_map_iff in H. destruct H as [r [<- Hr]].
  apply In_nth_error in Hr. destruct Hr as [i Hi].
  destruct (run_op_keeps o d i r Hi) as [r' [Hi' [Hid _]]].
  rewrite <- Hid. apply in_map. exact (nth_error_In _ _ Hi').
Qed.

Lemma run_full_cycle_references cfg w d :
  Forall (fun a => job_exists (Applications.job_id a) d = true)
         (applications d) ->
  Forall (fun a => job_exists (Applications.job_id a)
                     (fst (run_full_cycle cfg w d)) = true)
         (applications (fst (run_full_cycle cfg w d))).
Proof.
  intros Hd.
  set (d1 := upsert_all (jobs_found cfg w) d).
  set (d2 := fst (fst (draft_and_apply cfg (per_job w) d1))).
  assert (Hk1 : forall jid, job_exists jid d = true ->
                            job_exists jid d1 = true).
  { intros jid H. unfold d1. apply job_exists_upserted. now left. }
  assert (Hk2 : forall jid, job_exists jid d1 = true ->
                            job_exists jid d2 = true).
  { intros jid. rewrite !job_exists_iff. unfold d2.
    destruct (draft_and_apply_jobs cfg (per_job w) d1) as [ws [Hj _]].
    now rewrite Hj, map_job_id_replay. }
  assert (H2 : Forall (fun a => job_exists (Applications.job_id a) d2 = true)
                      (applications d2)).
  { unfold d2 at 2.
    destruct (draft_and_apply_applications cfg (per_job w) d1)
      as [added [Hadd Hin]].
    rewrite Hadd. apply Forall_app. split.
    - unfold d1 at 1. rewrite upsert_all_applications.
      eapply Forall_impl; [|exact Hd]. intros a Ha. now apply Hk2, Hk1.
    - apply Forall_forall. intros a Ha. now apply Hk2, Hin. }
  destruct (run_full_cycle_cases cfg w d) as [-> | ->]; [exact H2|].
  fold d1. fold d2.
  destruct (check_gmail_and_update_replay cfg (mailbox w) d2)
    as [ws [Hj [Ha _]]].
  rewrite Ha. eapply Forall_impl; [|exact H2].
  intros a. rewrite !job_exists_iff. now rewrite Hj, map_job_id_replay.
Qed.

Lemma run_op_references o d :
  Forall (fun a => job_exists (Applications.job_id a) d = true)
         (applications d) ->
  Forall (fun a => job_exists (Applications.job_id a) (run_op o d) = true)
         (applications (run_op o d)).
Proof.
  intros Hd. destruct o as [job|cfg w|cfg box].
  - simpl. replace (applications (add_or_update_job job d))
      with (applications d)
      by (unfold add_or_update_job; now destruct (job_exists _ d)).
    eapply Forall_impl; [|exact Hd]. intros a Ha.
    exact (run_op_job_ids (Upsert job) d _ Ha).
  - now apply run_full_cycle_references.
  - simpl.
    destruct (check_gmail_and_update_replay cfg box d) as [ws [_ [Ha _]]].
    rewrite Ha. eapply Forall_impl; [|exact Hd]. intros a Hex.
    exact (run_op_job_ids (Reconcile cfg box) d _ Hex).
Qed.

End Reachable.

(** X16.  The schema declares no foreign key, yet the code keeps one: in
    every store reached from the empty one by upserts, full cycles and
    reconcile calls, each row of applications carries the job_id of a row of
    jobs. *)
Theorem applications_reference_jobs (ops : list op) :
  Forall (fun a => job_exists (Applications.job_id a)
                     (run_ops ops init_db) = true)
         (applications (run_ops ops init_db)).
Proof.
  apply (run_ops_invariant
           (fun d => Forall (fun a => job_exists (Applications.job_id a) d = true)
                            (applications d))).
  - exact run_op_references.
  - constructor.
Qed.

(** X17.  Started from an empty store, the program only ever writes five
    statuses: after any sequence of full cycles and reconcile calls every job
    has status "new", "queued_manual", "applied", "error" or "replied".  The
    statuses "hired", "closed" and "automation_error" are written by no
    code path. *)
Theorem program_writes_five_statuses (ops : list op) :
  Forall started_by_program ops ->
  Forall (fun r => In (Jobs.status r) written_statuses)
         (jobs (run_ops ops init_db)).
Proof.
  intros Hops.
  assert (H : forall d,
             Forall (fun r => In (Jobs.status r) written_statuses) (jobs d) ->
             Forall (fun r => In (Jobs.status r) written_statuses)
                    (jobs (run_ops ops d))).
  { induction Hops as [|o ops Ho _ IH]; intros d Hd; [exact Hd|].
    apply IH. destruct o as [job|cfg w|cfg box]; simpl.
    - contradiction.
    - now apply run_full_cycle_statuses.
    - now apply check_gmail_and_update_statuses. }
  apply H. constructor.
Qed.

Lemma program_writes_five_statuses_witness :
  jobs (run_ops [FullCycle auto_cfg scenario_cycle;
                 Reconcile auto_cfg (ImapMessages [interview_mail] None)]
                init_db) <> [] /\
  Forall (fun r => In (Jobs.status r) written_statuses)
         (jobs (run_ops [FullCycle auto_cfg scenario_cycle;
                         Reconcile auto_cfg (ImapMessages [interview_mail] None)]
                        init_db)).
Proof.
  split; [discriminate|].
  apply (program_writes_five_statuses
           [FullCycle auto_cfg scenario_cycle;
            Reconcile auto_cfg (ImapMessages [interview_mail] None)]).
  repeat constructor.
Defined.

(** X18.  The reply matcher touches nothing but status and notes: a call to
    [check_gmail_and_update], however it ends, leaves the applications table
    and the number and order of job rows as they were, and every job row
    keeps its id, job_id, title, company, location, url, posted_date and
    applied_at. *)
Theorem check_gmail_and_update_frame
    (cfg : config) (box : inbox) (d : db) :
  applications (fst (fst (check_gmail_and_update cfg box d))) = applications d /\
  Forall2 same_but_status
          (jobs d) (jobs (fst (fst (check_gmail_and_update cfg box d)))).
Proof.
  destruct (check_gmail_and_update_replay cfg box d) as [ws [Hj [Ha _]]].
  split; [exact Ha|]. rewrite Hj. apply map_replay_same_but_status.
Qed.

(** *** C9: the ingestion filter *)

Section LetterCase.

Lemma in_all_ascii c : In c all_ascii.
Proof.
  unfold all_ascii. rewrite <- (ascii_nat_embedding c).
  apply in_map. apply in_seq. pose proof (nat_ascii_bounded c). lia.
Qed.

Lemma same_letter_table :
  forallb (fun a =>
    forallb (fun b =>
      Bool.eqb (same_letter a b)
               (PyStr.lower_char a =? PyStr.lower_char b)%char)
      all_ascii) all_ascii = true.
Proof. vm_compute. reflexivity. Qed.

Lemma same_letter_lower a b :
  same_letter a b = true <-> PyStr.lower_char a = PyStr.lower_char b.
Proof.
  pose proof same_letter_table as H.
  rewrite forallb_forall in H. specialize (H a (in_all_ascii a)).
  rewrite forallb_forall in H. specialize (H b (in_all_ascii b)).
  apply Bool.eqb_prop in H. rewrite H. apply Ascii.eqb_eq.
Qed.

Lemma same_text_lower s t :
  same_text_ignoring_case s t = true <-> PyStr.lower s = PyStr.lower t.
Proof.
  revert t. induction s as [|a s IH]; intros [|b t]; cbn;
    try (split; [reflexivity || discriminate | reflexivity || discriminate]).
  rewrite andb_true_iff, IH, same_letter_lower. split.
  - intros [-> ->]. reflexivity.
  - intros H. injection H as H1 H2. now split.
Qed.

Lemma lower_split s :
  forall a b,
    PyStr.lower s = a ++ b ->
    exists s1 s2, s = s1 ++ s2 /\ PyStr.lower s1 = a /\ PyStr.lower s2 = b.
Proof.
  induction s as [|c s IH]; intros a b H.
  - destruct a; [|discriminate]. cbn in H. exists "", "". now subst.
  - destruct a as [|c' a].
    + exists "", (String c s). cbn in *. now subst.
    + cbn [PyStr.lower append] in H. injection H as Hc H.
      destruct (IH _ _ H) as [s1 [s2 [-> [H1 H2]]]].
      exists (String c s1), s2. cbn [PyStr.lower append].
      now rewrite Hc, H1, H2.
Qed.

Lemma markers_are_lower marker :
  In marker recency_markers -> PyStr.lower marker = marker.
Proof. intros [<-|[<-|[<-|[]]]]; reflexivity. Qed.

(** The filter, without [lower]: some part of the text is a marker up to
    letter case. *)
Lemma posted_recently_iff posted :
  posted_recently posted = true <->
  exists marker before mid after,
    In marker recency_markers /\
    posted = before ++ mid ++ after /\
    same_text_ignoring_case mid marker = true.
Proof.
  rewrite posted_recently_claimed. unfold claimed_recent.
  rewrite existsb_exists. split.
  - intros [marker [Hin Hc]].
    apply contains_iff in Hc. destruct Hc as [a [b Hc]].
    destruct (lower_split _ _ _ Hc) as [before [rest [-> [_ Hrest]]]].
    destruct (lower_split _ _ _ Hrest) as [mid [after [-> [Hmid _]]]].
    exists marker, before, mid, after. repeat split; [exact Hin|].
    apply same_text_lower. now rewrite (markers_are_lower _ Hin).
  - intros [marker [before [mid [after [Hin [-> Hsame]]]]]].
    exists marker. split; [exact Hin|].
    apply same_text_lower in Hsame.
    rewrite (markers_are_lower _ Hin) in Hsame.
    apply contains_iff. exists (PyStr.lower before), (PyStr.lower after).
    now rewrite !lower_app, Hsame.
Qed.

Lemma job_exists_upsert_all_iff found :
  forall jid d,
    job_exists jid (upsert_all found d) = true <->
    job_exists jid d = true \/ In jid (map JobDict.job_id found).
Proof.
  induction found as [|job found IH]; intros jid d.
  - simpl. tauto.
  - simpl upsert_all. change (fold_left _ found (add_or_update_job job d))
      with (upsert_all found (add_or_update_job job d)).
    rewrite IH, job_exists_add_or_update_job. simpl. intuition congruence.
Qed.

(** Stage 3 and the email check rename no job: the job_ids a cycle leaves are
    those the upsert stage left. *)
Lemma run_full_cycle_job_ids cfg w d :
  map Jobs.job_id (jobs (fst (run_full_cycle cfg w d))) =
  map Jobs.job_id (jobs (upsert_all (jobs_found cfg w) d)).
Proof.
  assert (H2 : map Jobs.job_id
                 (jobs (fst (fst (draft_and_apply cfg (per_job w)
                                    (upsert_all (jobs_found cfg w) d))))) =
               map Jobs.job_id (jobs (upsert_all (jobs_found cfg w) d))).
  { destruct (draft_and_apply_jobs cfg (per_job w)
                (upsert_all (jobs_found cfg w) d)) as [ws [Hj _]].
    now rewrite Hj, map_job_id_replay. }
  destruct (run_full_cycle_cases cfg w d) as [-> | ->]; [exact H2|].
  destruct (check_gmail_and_update_replay cfg (mailbox w)
              (fst (fst (draft_and_apply cfg (per_job w)
                           (upsert_all (jobs_found cfg w) d)))))
    as [ws [Hj _]].
  now rewrite Hj, map_job_id_replay.
Qed.

End LetterCase.

(** C9.  A posted-date text passes the filter of both scrapers exactly when
    some part of it is "today", "just posted" or "1 day" up to letter case.  Of
    the cards scraped from a page (for Indeed, a page answered with status
    200) the listings handed on are those of the cards that pass, in order.
    After a cycle the store holds a job_id exactly when it held it before or a
    scraped card that passes carries it: the record of a card that passes
    reaches the store, and a card that does not pass, such as one with no
    posted-date text, an empty one or "2 days ago", adds nothing to it. *)
Theorem only_recent_listings_reach_the_store :
  (forall posted,
     posted_recently posted = true <->
     exists marker before mid after,
       In marker recency_markers /\
       posted = before ++ mid ++ after /\
       same_text_ignoring_case mid marker = true) /\
  (forall today role location cards,
     search_indeed today role location (HttpResponse 200 cards) =
     Some (map (indeed_listing today location)
               (filter (fun c => claimed_recent (posted_text c)) cards))) /\
  (forall today role location code cards,
     search_naukri today role location (HttpResponse code cards) =
     map (naukri_listing today location)
         (filter (fun c => claimed_recent (posted_text c)) cards)) /\
  (forall cfg w code cards_i cards_n d jid,
     indeed w = HttpResponse 200 cards_i ->
     naukri w = HttpResponse code cards_n ->
     (job_exists jid (fst (run_full_cycle cfg w d)) = true <->
      job_exists jid d = true \/
      (exists c, In c cards_i /\
                 claimed_recent (posted_text c) = true /\
                 JobDict.job_id
                   (indeed_listing (today w) (JOB_LOCATION cfg) c) = jid) \/
      (exists c, In c cards_n /\
                 claimed_recent (posted_text c) = true /\
                 JobDict.job_id
                   (naukri_listing (today w) (JOB_LOCATION cfg) c) = jid))) /\
  (forall posted, claimed_recent posted = posted_recently posted) /\
  posted_recently "" = false /\
  posted_recently "2 days ago" = false /\
  posted_recently "Just Posted" = true /\
  posted_recently "TODAY" = true /\
  posted_recently "Posted 1 Day Ago" = true /\
  (forall title company location href,
     posted_text (mkcard title company location href None) = "").
Proof.
  assert (Hfilter : forall cards,
            filter (fun c => posted_recently (posted_text c)) cards =
            filter (fun c => claimed_recent (posted_text c)) cards).
  { intros cards. apply filter_ext. intros c. apply posted_recently_claimed. }
  split; [exact posted_recently_iff|].
  split.
  { intros today role location cards. unfold search_indeed. simpl.
    now rewrite Hfilter. }
  split.
  { intros today role location code cards. unfold search_naukri.
    now rewrite Hfilter. }
  split.
  { intros cfg w code cards_i cards_n d jid Hi Hn.
    rewrite !job_exists_iff, run_full_cycle_job_ids, <- !job_exists_iff.
    rewrite job_exists_upsert_all_iff.
    unfold jobs_found. rewrite Hi, Hn.
    unfold search_indeed, search_naukri. cbn [Nat.eqb negb].
    rewrite !Hfilter, map_app, in_app_iff, !map_map, !in_map_iff.
    split.
    - intros [H|[[c [Hid Hc]]|[c [Hid Hc]]]]; [now left | |];
        apply filter_In in Hc; destruct Hc as [Hc Hrec].
      + right. left. now exists c.
      + right. right. now exists c.
    - intros [H|[[c [Hc [Hrec Hid]]]|[c [Hc [Hrec Hid]]]]]; [now left | |].
      + right. left. exists c. split; [exact Hid|].
        apply filter_In. now split.
      + right. right. exists c. split; [exact Hid|].
        apply filter_In. now split. }
  split; [intros posted; symmetry; apply posted_recently_claimed|].
  repeat split; reflexivity.
Qed.

Lemma only_recent_listings_reach_the_store_witness :
  job_exists "Acme|SWE|https://www.indeed.com/job/1"
             (fst (run_full_cycle manual_cfg two_card_cycle init_db)) = true /\
  job_exists "Initech|QA|https://www.indeed.com/job/2"
             (fst (run_full_cycle manual_cfg two_card_cycle init_db)) = false.
Proof.
  pose proof (proj1 (proj2 (proj2 (proj2 only_recent_listings_reach_the_store)))
                manual_cfg two_card_cycle 200 [acme_card; old_card] [] init_db)
    as H.
  split.
  - apply (H _ eq_refl eq_refl). right. left. exists acme_card.
    repeat split. now left.
  - apply not_true_is_false. intros E.
    apply (H _ eq_refl eq_refl) in E.
    destruct E as [E|[[c [[<-|[<-|[]]] [Hrec Hid]]]|[c [[] _]]]];
      discriminate.
Defined.

(** *** A stage that completes, job by job *)

Section CompletedStage.

Lemma manual_required_has_detail (job : ApplyJob.t) (b : browser) :
  ApplyResult.result (apply_to_job job b) = "manual_required" ->
  exists t, ApplyResult.detail (apply_to_job job b) = Some t.
Proof.
  unfold apply_to_job, manual_required.
  destruct (truthy_opt (ApplyJob.url job));
    destruct b as [[c|] [g|] [f|] [s|] [q|] [h|]]; simpl;
    try discriminate; intros _; eexists; reflexivity.
Qed.

Lemma replay_one (j status notes : string) (r : Jobs.row) :
  Jobs.job_id r = j ->
  replay [mkwrite j status notes] r =
  Jobs.mk (Jobs.id r) (Jobs.job_id r) (Jobs.title r) (Jobs.company r)
          (Jobs.location r) (Jobs.url r) (Jobs.posted_date r)
          status (Jobs.applied_at r) notes.
Proof.
  intros <-. cbn. unfold apply_write. cbn. now rewrite String.eqb_refl.
Qed.

End CompletedStage.

(** X19.  On a store with unique job_ids, take the row at any position
    before a draft-and-apply stage that ends without an exception.  The stage
    only appends application rows.  If the row's status is not "new", the
    stage issues no status update and appends no application row for its job
    and leaves the row as it was.  If it is "new", the stage issues exactly
    one status update and appends exactly one application row for its job;
    the application row holds the job_id, the cover text as sqlite3 bound it,
    the resume path and the time of the attempt, and afterwards the row is
    the old row with the status and the notes of the update and nothing else
    changed.  With APPLY_MODE "auto" the application row's result is [str]
    of the executor's dict, and the status is "applied" (notes: that [str])
    when the executor's result is "applied", "queued_manual" (notes: the
    executor's detail) when it is "manual_required", and "error" (notes: that
    [str]) otherwise.  With any other APPLY_MODE the status is
    "queued_manual", the notes "Awaiting manual approval to apply" and the
    application row's result "queued_for_manual". *)
Theorem completed_stage_once_per_new_job
    (cfg : config) (w : nat -> job_world) (d d' : db) (ws : list write)
    (i : nat) (r : Jobs.row) :
  unique_job_ids d ->
  draft_and_apply cfg w d = (d', ws, None) ->
  nth_error (jobs d) i = Some r ->
  exists added,
    applications d' = (applications d ++ added)%list /\
    (Jobs.status r <> "new" ->
     writes_to (Jobs.job_id r) ws = [] /\
     applications_of (Jobs.job_id r) added = [] /\
     nth_error (jobs d') i = Some r) /\
    (Jobs.status r = "new" ->
     exists k cover id status notes result,
       bind_text (local_llm_generate cfg (llm (w k))
                    (cover_prompt cfg (Jobs.title r) (Jobs.company r)))
         = inl cover /\
       writes_to (Jobs.job_id r) ws = [mkwrite (Jobs.job_id r) status notes] /\
       applications_of (Jobs.job_id r) added =
         [Applications.mk id (Jobs.job_id r) cover (RESUME_PATH cfg)
                          (now (w k)) result] /\
       nth_error (jobs d') i =
         Some (Jobs.mk (Jobs.id r) (Jobs.job_id r) (Jobs.title r)
                       (Jobs.company r) (Jobs.location r) (Jobs.url r)
                       (Jobs.posted_date r) status (Jobs.applied_at r) notes) /\
       (APPLY_MODE cfg <> "auto" ->
        status = "queued_manual" /\
        notes = "Awaiting manual approval to apply" /\
        result = "queued_for_manual") /\
       (APPLY_MODE cfg = "auto" ->
        result = PyRepr.str_result (apply_to_job (apply_job_of r) (page (w k))) /\
        (ApplyResult.result (apply_to_job (apply_job_of r) (page (w k)))
           = "applied" ->
         status = "applied" /\
         notes = PyRepr.str_result
                   (apply_to_job (apply_job_of r) (page (w k)))) /\
        (ApplyResult.result (apply_to_job (apply_job_of r) (page (w k)))
           = "manual_required" ->
         status = "queued_manual" /\
         ApplyResult.detail (apply_to_job (apply_job_of r) (page (w k)))
           = Some notes) /\
        (ApplyResult.result (apply_to_job (apply_job_of r) (page (w k)))
           <> "applied" ->
         ApplyResult.result (apply_to_job (apply_job_of r) (page (w k)))
           <> "manual_required" ->
         status = "error" /\
         notes = PyRepr.str_result
                   (apply_to_job (apply_job_of r) (page (w k)))))).
Proof.
  intros Hu Hrun Hi. unfold draft_and_apply in Hrun.
  set (rows := filter (fun r => Jobs.status r =? "new") (jobs d)) in *.
  assert (Hnd : NoDup (map Jobs.job_id rows)) by now apply selected_rows_unique.
  destruct (draft_and_apply_rows_replay cfg w rows _ _ _ _ _ Hrun) as [Hj _].
  destruct (draft_and_apply_rows_spec cfg w rows _ _ _ _ Hnd Hrun)
    as [added [Ha [Hin Hout]]].
  assert (Hr : In r (jobs d)) by exact (nth_error_In _ _ Hi).
  assert (Hrow : nth_error (jobs d') i =
                 Some (replay (writes_to (Jobs.job_id r) ws) r)).
  { rewrite Hj, (nth_error_map_replay ws _ _ _ Hi). f_equal.
    apply replay_writes_to. }
  exists added. split; [exact Ha|]. split.
  - intros Hst.
    assert (Hnot : ~ In (Jobs.job_id r) (map Jobs.job_id rows)).
    { intros H. apply in_map_iff in H. destruct H as [x [Hx Hxin]].
      apply filter_In in Hxin. destruct Hxin as [Hxd Hxnew].
      apply String.eqb_eq in Hxnew.
      assert (x = r) by exact (job_id_names_row (jobs d) x r Hu Hxd Hr Hx).
      congruence. }
    destruct (Hout _ Hnot) as [Hw Happ].
    repeat split; auto. now rewrite Hrow, Hw.
  - intros Hst.
    assert (Hrin : In r rows).
    { apply filter_In. split; [exact Hr | now apply String.eqb_eq]. }
    destruct (Hin _ Hrin) as [k [cover [id [Hb [Hw Happ]]]]].
    rewrite Hw in Hrow. rewrite (job_write_eta cfg (w k) r) in Hw, Hrow.
    rewrite replay_one in Hrow by reflexivity.
    exists k, cover, id, (w_status (job_write cfg (w k) r)),
      (w_notes (job_write cfg (w k) r)),
      (Applications.result (job_application cfg (w k) r cover id)).
    split; [exact Hb|]. split; [exact Hw|]. split; [exact Happ|].
    split; [exact Hrow|].
    unfold job_write, job_application, apply_job_of.
    cbn [Applications.result]. split.
    + intros Hmode. apply String.eqb_neq in Hmode. rewrite Hmode.
      repeat split.
    + intros Hmode. apply String.eqb_eq in Hmode. rewrite Hmode.
      split; [reflexivity|]. split; [|split].
      * intros E. apply String.eqb_eq in E. rewrite E. now split.
      * intros E. destruct (manual_required_has_detail _ _ E) as [t Ht].
        rewrite E, Ht. cbn. now split.
      * intros E1 E2. apply String.eqb_neq in E1, E2. rewrite E1, E2.
        now split.
Qed.

Lemma completed_stage_once_per_new_job_witness :
  draft_and_apply auto_cfg no_input_world acme_store =
    (mkdb [Jobs.mk 1 "Acme|SWE|https://x/1" "SWE" "Acme" "India"
                   (Some "https://x/1") "2026-01-01" "queued_manual" None
                   "no file input or error: no such element"]
          [Applications.mk 1 "Acme|SWE|https://x/1"
             ("Optimized cover for prompt (stub): "
              ++ PyStr.take 300 (cover_prompt auto_cfg "SWE" "Acme"))
             "./resume/my_resume.pdf" "2026-01-02T00:00:00"
             "{'result': 'manual_required', 'detail': 'no file input or error: no such element'}"],
     [mkwrite "Acme|SWE|https://x/1" "queued_manual"
              "no file input or error: no such element"],
     None) /\
  exists added k cover id status notes result,
    [Applications.mk 1 "Acme|SWE|https://x/1"
       ("Optimized cover for prompt (stub): "
        ++ PyStr.take 300 (cover_prompt auto_cfg "SWE" "Acme"))
       "./resume/my_resume.pdf" "2026-01-02T00:00:00"
       "{'result': 'manual_required', 'detail': 'no file input or error: no such element'}"]
      = (applications acme_store ++ added)%list /\
    applications_of "Acme|SWE|https://x/1" added =
      [Applications.mk id "Acme|SWE|https://x/1" cover
                       "./resume/my_resume.pdf" (now (no_input_world k))
                       result] /\
    Some (Jobs.mk 1 "Acme|SWE|https://x/1" "SWE" "Acme" "India"
                  (Some "https://x/1") "2026-01-01" "queued_manual" None
                  "no file input or error: no such element")
      = Some (Jobs.mk 1 "Acme|SWE|https://x/1" "SWE" "Acme" "India"
                      (Some "https://x/1") "2026-01-01" status None notes) /\
    status = "queued_manual" /\
    Some "no file input or error: no such element" = Some notes /\
    result = "{'result': 'manual_required', 'detail': 'no file input or error: no such element'}".
Proof.
  split; [reflexivity|].
  assert (Hu : unique_job_ids acme_store) by unique_by_computation.
  destruct (completed_stage_once_per_new_job auto_cfg no_input_world
              acme_store _ _ 0 acme_row Hu eq_refl eq_refl)
    as [added [Ha [_ Hnew]]].
  destruct (Hnew eq_refl)
    as [k [cover [id [status [notes [result
          [_ [_ [Happ [Hrow [_ Hauto]]]]]]]]]]].
  destruct (Hauto eq_refl) as [Hres [_ [Hmr _]]].
  destruct (Hmr eq_refl) as [Hs Hn].
  exists added, k, cover, id, status, notes, result.
  repeat split; assumption.
Defined.
